(** * claude-context-pack: scanner and analyzer

    A shallow embedding of [src/scanner.js] (pattern matcher, token
    estimator, filesystem walker) and [src/analyzer.js] (bloat classifier and
    result assembly), with the properties of the project specification
    stated and settled against it.

    Conventions.
    - A JavaScript string is a [str]: the list of its code units, kept to the
      8-bit range ([ascii]).  String literals are written with the usual
      quotes and coerced.
    - JavaScript numbers that hold counts and sizes are integers [Z]; the one
      real division of the program ([estimateTokens]) is done in [Q].
    - Code that can throw returns an [outcome]; [try]/[catch] is a [match] on
      it.
    - The filesystem is what the [fs] calls of the walker observe: a tree of
      directory entries, each carrying the result of the calls made on it. *)

From Stdlib Require Import List ZArith QArith Qround Ascii String Bool Lia.
From Stdlib Require Import Permutation Sorted.
Import ListNotations.
Open Scope string_scope.
Open Scope list_scope.
Open Scope Z_scope.

Set Implicit Arguments.
Set Warnings "-register-all".

(* ================================================================== *)
(** * Strings *)
(* ================================================================== *)

Definition str := list ascii.

Definition lit (s : string) : str := list_ascii_of_string s.
Coercion lit : string >-> str.

Module Str.

Fixpoint eqb (a b : str) : bool :=
  match a, b with
  | [], [] => true
  | x :: a', y :: b' => Ascii.eqb x y && eqb a' b'
  | _, _ => false
  end.

(** [s.startsWith(p)] *)
Fixpoint startsWith (s p : str) {struct p} : bool :=
  match p, s with
  | [], _ => true
  | y :: p', x :: s' => Ascii.eqb x y && startsWith s' p'
  | _ :: _, [] => false
  end.

(** [s.endsWith(p)] *)
Definition endsWith (s p : str) : bool :=
  startsWith (rev s) (rev p).

(** [s.includes(p)] *)
Fixpoint includes (s p : str) : bool :=
  startsWith s p ||
  match s with
  | [] => false
  | _ :: s' => includes s' p
  end.

(** [s.includes(c)] for a one-character needle *)
Definition includesChar (s : str) (c : ascii) : bool :=
  existsb (Ascii.eqb c) s.

(** [s.split(c)] for a one-character separator: never the empty list *)
Fixpoint split (c : ascii) (s : str) : list str :=
  match s with
  | [] => [[]]
  | x :: s' =>
      if Ascii.eqb x c then [] :: split c s'
      else match split c s' with
           | h :: t => (x :: h) :: t
           | [] => [[x]]
           end
  end.

(** [s.slice(n)] *)
Definition sliceFrom (n : nat) (s : str) : str := skipn n s.

(** [s.slice(0, -n)] *)
Definition dropLast (n : nat) (s : str) : str :=
  firstn (List.length s - n) s.

(** [s.replace(/\\/g, '/')] *)
Definition slashes (s : str) : str :=
  map (fun c => if Ascii.eqb c "\"%char then "/"%char else c) s.

(** White space of [String.prototype.trim] in the 8-bit range:
    TAB, LF, VT, FF, CR, SP, NBSP. *)
Definition isSpace (c : ascii) : bool :=
  let n := nat_of_ascii c in
  (((9 <=? n) && (n <=? 13)) || (n =? 32) || (n =? 160))%nat.

Fixpoint trimStart (s : str) : str :=
  match s with
  | c :: s' => if isSpace c then trimStart s' else s
  | [] => []
  end.

(** [s.trim()] *)
Definition trim (s : str) : str :=
  rev (trimStart (rev (trimStart s))).

(** [c.toLowerCase()] in the 8-bit range: the letters A-Z and the capital
    letters of Latin-1 move by 32, every other code unit stays. *)
Definition lowerChar (c : ascii) : ascii :=
  let n := nat_of_ascii c in
  if (((65 <=? n) && (n <=? 90)) || ((192 <=? n) && (n <=? 214))
      || ((216 <=? n) && (n <=? 222)))%nat
  then ascii_of_nat (n + 32) else c.

(** [s.toLowerCase()] *)
Definition toLowerCase (s : str) : str := map lowerChar s.

End Str.

(* ================================================================== *)
(** * Exceptions *)
(* ================================================================== *)

Inductive errno := ENOENT | ENOTDIR | EACCES | EISDIR | EIO.

Inductive exn :=
| IOError (code : errno)     (* thrown by an [fs] call *)
| SyntaxError.               (* thrown by [new RegExp] *)

Inductive outcome (A : Type) :=
| Returned (a : A)
| Thrown (e : exn).
Arguments Returned {A} a.
Arguments Thrown {A} e.

Definition bind {A B} (m : outcome A) (k : A -> outcome B) : outcome B :=
  match m with
  | Returned a => k a
  | Thrown e => Thrown e
  end.

Notation "x <- m ;; k" := (bind m (fun x => k))
  (at level 61, m at next level, right associativity).

(** [for (const x of l) body(x)] over a threaded state; a throw leaves the
    loop. *)
Definition for_each {A S} (body : A -> S -> outcome S) : list A -> S -> outcome S :=
  fix go (l : list A) (st : S) : outcome S :=
    match l with
    | [] => Returned st
    | x :: l' => st' <- body x st ;; go l' st'
    end.

(** [l.some(f)]: stops at the first [true]; a throw of [f] propagates. *)
Definition some_m {A} (f : A -> outcome bool) : list A -> outcome bool :=
  fix go (l : list A) : outcome bool :=
    match l with
    | [] => Returned false
    | x :: l' => b <- f x ;; if b then Returned true else go l'
    end.

(* ================================================================== *)
(** * scanner.js *)
(* ================================================================== *)

Definition CHARS_PER_TOKEN : Z := 4.

Definition DEFAULT_IGNORE : list str :=
  [lit ".git"; lit ".DS_Store"; lit "Thumbs.db"].

Definition BINARY_EXTENSIONS : list str :=
  [ lit ".png"; lit ".jpg"; lit ".jpeg"; lit ".gif"; lit ".webp"; lit ".ico";
    lit ".bmp"; lit ".tiff"; lit ".svg";
    lit ".mp4"; lit ".mp3"; lit ".wav"; lit ".ogg"; lit ".mov"; lit ".avi";
    lit ".mkv";
    lit ".pdf"; lit ".zip"; lit ".tar"; lit ".gz"; lit ".7z"; lit ".rar";
    lit ".woff"; lit ".woff2"; lit ".ttf"; lit ".eot"; lit ".otf";
    lit ".exe"; lit ".dll"; lit ".so"; lit ".dylib"; lit ".bin";
    lit ".pyc"; lit ".pyo"; lit ".class";
    lit ".db"; lit ".sqlite"; lit ".sqlite3" ].

(** [BINARY_EXTENSIONS.has(ext)] *)
Definition BINARY_EXTENSIONS_has (ext : str) : bool :=
  existsb (Str.eqb ext) BINARY_EXTENSIONS.

(** [estimateTokens]: a real division, then [Math.ceil]. *)
Definition estimateTokens (chars : Z) : Z :=
  Qceiling (inject_Z chars / inject_Z CHARS_PER_TOKEN).

(** ** Node's [path] on POSIX, at the arguments the walker gives it *)

(** [path.join(dir, name)] where it is a plain concatenation: for a [dir]
    that is absolute and normalized and is not the filesystem root (what
    [path.resolve] returns, the root [/] apart), and a [name] of one
    segment that is neither [.] nor [..].  Elsewhere [path.join] normalizes
    its result ([/] and [x] give [/x], [/p/] and [x] give [/p/x]) and the
    field [path] of a record is not this concatenation; the relative path is
    the same either way. *)
Definition path_join (dir name : str) : str := dir ++ lit "/" ++ name.

(** [path.relative(from, to)] for [to] below [from]: what follows [from/]. *)
Definition path_relative (from to : str) : str :=
  if Str.startsWith to (from ++ lit "/")
  then skipn (List.length from + 1) to
  else to.

(** Index of the last ["."] of [s], if any. *)
Fixpoint lastDot (s : str) : option nat :=
  match s with
  | [] => None
  | c :: s' =>
      match lastDot s' with
      | Some i => Some (S i)
      | None => if Ascii.eqb c "."%char then Some O else None
      end
  end.

(** [path.extname(name)] for a name without separators: from the last dot
    on; empty when there is no dot, when the only dot leads the name, and for
    [..]. *)
Definition path_extname (name : str) : str :=
  match lastDot name with
  | None => []
  | Some O => []
  | Some i => if Str.eqb name (lit "..") then [] else skipn i name
  end.

(** ** The regular expressions of [minimatch]

    [minimatch] hands a source text to [new RegExp] and tests a segment
    with it.  The engine is JavaScript's own, so the scanner is
    parameterized by it: [RegExp_test src s] is [Some b] when
    [new RegExp(src).test(s)] is [b], and [None] when the constructor throws
    a SyntaxError. *)

Module Fragment.

(** A reference engine for the sources [minimatch] builds from rules made
    of ordinary characters, dots and stars: [^], then literal characters,
    escaped dots and [.*], then [$].  A source outside this fragment is not
    interpreted: [test] answers [None].  The examples below use one such
    source, [^.*($], the rule [*(] escaped: an unterminated group, which
    [new RegExp] rejects with a SyntaxError. *)

Inductive tok := Any | Chr (c : ascii).

Definition isMeta (c : ascii) : bool :=
  existsb (Ascii.eqb c) (lit "\^$.*+?()[]{}|").

Fixpoint parse (s : str) : option (list tok) :=
  match s with
  | [] => None
  | c :: s' =>
      if Ascii.eqb c "$"%char then
        match s' with [] => Some [] | _ => None end
      else if Ascii.eqb c "\"%char then
        match s' with
        | d :: s'' =>
            if Ascii.eqb d "."%char
            then option_map (cons (Chr d)) (parse s'')
            else None
        | [] => None
        end
      else if Ascii.eqb c "."%char then
        match s' with
        | d :: s'' =>
            if Ascii.eqb d "*"%char
            then option_map (cons Any) (parse s'')
            else None
        | [] => None
        end
      else if isMeta c then None
      else option_map (cons (Chr c)) (parse s')
  end.

(** [.] matches any character but a line terminator. *)
Definition isLineTerminator (c : ascii) : bool :=
  Ascii.eqb c "010"%char || Ascii.eqb c "013"%char.

Fixpoint run (ts : list tok) (s : str) : bool :=
  match ts with
  | [] => match s with [] => true | _ => false end
  | Chr c :: ts' =>
      match s with
      | x :: s' => Ascii.eqb x c && run ts' s'
      | [] => false
      end
  | Any :: ts' =>
      (fix star (s : str) : bool :=
         run ts' s ||
         match s with
         | x :: s' => negb (isLineTerminator x) && star s'
         | [] => false
         end) s
  end.

Definition test (src s : str) : option bool :=
  match src with
  | c :: body =>
      if Ascii.eqb c "^"%char
      then option_map (fun ts => run ts s) (parse body)
      else None
  | [] => None
  end.

End Fragment.

Section Scanner.

Variable RegExp_test : str -> str -> option bool.

(** [new RegExp(src).test(s)] *)
Definition regexp (src s : str) : outcome bool :=
  match RegExp_test src s with
  | Some b => Returned b
  | None => Thrown SyntaxError
  end.

(** [pattern.replace(/\./g, '\\.').replace(/\*/g, '.*')] *)
Definition escape (pattern : str) : str :=
  flat_map (fun c =>
              if Ascii.eqb c "."%char then lit "\."
              else if Ascii.eqb c "*"%char then lit ".*"
              else [c]) pattern.

Definition minimatch (s pattern : str) : outcome bool :=
  if Str.eqb pattern (lit "*") then Returned true
  else if negb (Str.includesChar pattern "*"%char)
       then Returned (Str.eqb s pattern)
  else regexp (lit "^" ++ escape pattern ++ lit "$") s.

Definition matchesPattern (relPath pattern : str) : outcome bool :=
  let normalized := Str.slashes relPath in
  let p := Str.slashes pattern in
  if negb (Str.includesChar p "/"%char) then
    let parts := Str.split "/"%char normalized in
    some_m (fun part => minimatch part p) parts
  else if Str.startsWith p (lit "**/") then
    let suffix := Str.sliceFrom 3 p in
    Returned (Str.endsWith normalized suffix
              || Str.includes normalized (lit "/" ++ suffix))
  else if Str.endsWith p (lit "/*") then
    let prefix := Str.dropLast 2 p in
    Returned (Str.startsWith normalized (prefix ++ lit "/"))
  else if Str.endsWith p (lit "/**") then
    let prefix := Str.dropLast 3 p in
    Returned (Str.startsWith normalized (prefix ++ lit "/")
              || Str.eqb normalized prefix)
  else
    Returned (Str.eqb normalized p
              || Str.startsWith normalized (p ++ lit "/")).

Fixpoint isIgnored (relPath : str) (patterns : list str) : outcome bool :=
  match patterns with
  | [] => Returned false
  | pattern :: rest =>
      m <- matchesPattern relPath pattern ;;
      if m then Returned true else isIgnored relPath rest
  end.

(** ** The filesystem the walker observes *)

(** An entry of a directory listing ([fs.Dirent]) with the results of the
    calls the walker may make on it: [statSync] and [readFileSync] on a
    regular file, [readdirSync] on a directory.  [Other] is an entry that
    is neither ([isDirectory()] and [isFile()] both false: a symbolic link,
    a socket, a device). *)
Inductive dirent :=
| File (name : str) (stat : outcome Z) (content : outcome str)
| Dir (name : str) (listing : outcome (list dirent))
| Other (name : str).

Definition entry_name (e : dirent) : str :=
  match e with
  | File n _ _ => n
  | Dir n _ => n
  | Other n => n
  end.

(** What [existsSync] and [readFileSync] observe at an ignore file. *)
Inductive ignoreFile :=
| Absent
| Present (content : outcome str).

Record filesystem := {
  root : outcome (list dirent);      (* [readdirSync(rootDir)] *)
  claudeignore : ignoreFile;         (* [rootDir/.claudeignore] *)
  gitignore : ignoreFile             (* [rootDir/.gitignore] *)
}.

Definition existsSync (f : ignoreFile) : bool :=
  match f with Absent => false | Present _ => true end.

Definition parseIgnoreFile (f : ignoreFile) : list str :=
  match f with
  | Present (Returned content) =>
      filter (fun line => negb (Str.eqb line [])
                          && negb (Str.startsWith line (lit "#")))
             (map Str.trim (Str.split "010"%char content))
  | _ => []
  end.

Record scanOptions := {
  verbose : bool;
  respectGitignore : bool            (* [options.respectGitignore !== false] *)
}.

Definition defaultOptions : scanOptions :=
  {| verbose := false; respectGitignore := true |}.

Record FileRecord := {
  path : str;
  relPath : str;
  name : str;
  ext : str;
  size : Z;
  tokens : Z;
  isBinary : bool
}.

Record scanResult := {
  files : list FileRecord;
  totalTokens : Z;
  totalBytes : Z;
  ignoredCount : Z;
  binaryCount : Z;
  rootDir : str;
  hasClaudeignore : bool;
  hasGitignore : bool
}.

(** The three variables [walk] closes over. *)
Record walkState := {
  w_files : list FileRecord;
  w_ignoredCount : Z;
  w_binaryCount : Z
}.

Definition emptyState : walkState :=
  {| w_files := []; w_ignoredCount := 0; w_binaryCount := 0 |}.

(** [Array.prototype.sort(cmp)]: a stable sort; [cmp a b <= 0] keeps [a]
    before [b]. *)
Section Sort.
Variable A : Type.
Variable cmp : A -> A -> Z.

Fixpoint insert (x : A) (l : list A) : list A :=
  match l with
  | [] => [x]
  | y :: l' => if cmp x y <=? 0 then x :: l else y :: insert x l'
  end.

Definition sort (l : list A) : list A := fold_right insert [] l.
End Sort.

Section Scan.

Variable rootDir_ : str.
Variable allPatterns : list str.

(** The [try] block of [walk] on a regular file: [(size, tokens)]. *)
Definition measure (isBin : bool) (stat : outcome Z) (content : outcome str)
  : Z * Z :=
  match stat with
  | Thrown _ => (0, 0)
  | Returned sz =>
      if negb isBin then
        match content with
        | Thrown _ => (sz, 0)
        | Returned c => (sz, estimateTokens (Z.of_nat (List.length c)))
        end
      else (sz, 0)
  end.

(** The record [walk] pushes for a regular file. *)
Definition record_of (fullPath rel nm : str) (stat : outcome Z)
           (content : outcome str) : FileRecord :=
  let ex := Str.toLowerCase (path_extname nm) in
  let isBin := BINARY_EXTENSIONS_has ex in
  let '(sz, tk) := measure isBin stat content in
  {| path := fullPath;
     relPath := rel;
     name := nm;
     ext := ex;
     size := sz;
     tokens := tk;
     isBinary := isBin |}.

(** The body of the [for] loop of [walk(dir)] on one entry. *)
Fixpoint visit (dir : str) (entry : dirent) (st : walkState) {struct entry}
  : outcome walkState :=
  let fullPath := path_join dir (entry_name entry) in
  let rel := path_relative rootDir_ fullPath in
  ign <- isIgnored rel allPatterns ;;
  if ign then
    Returned {| w_files := w_files st;
                w_ignoredCount := w_ignoredCount st + 1;
                w_binaryCount := w_binaryCount st |}
  else
    match entry with
    | Dir _ (Returned entries) => for_each (visit fullPath) entries st
    | Dir _ (Thrown _) => Returned st
    | File nm stat content =>
        let f := record_of fullPath rel nm stat content in
        Returned {| w_files := w_files st ++ [f];
                    w_ignoredCount := w_ignoredCount st;
                    w_binaryCount :=
                      if isBinary f then w_binaryCount st + 1
                      else w_binaryCount st |}
    | Other _ => Returned st
    end.

(** [walk(dir)], given what [readdirSync(dir)] does. *)
Definition walk (dir : str) (listing : outcome (list dirent))
           (st : walkState) : outcome walkState :=
  match listing with
  | Thrown _ => Returned st
  | Returned entries => for_each (visit dir) entries st
  end.

End Scan.

Definition allPatternsOf (fs : filesystem) (options : scanOptions) : list str :=
  let userPatterns :=
    if existsSync (claudeignore fs) then parseIgnoreFile (claudeignore fs)
    else [] in
  let gitPatterns :=
    if respectGitignore options && existsSync (gitignore fs)
    then parseIgnoreFile (gitignore fs)
    else [] in
  DEFAULT_IGNORE ++ gitPatterns ++ userPatterns.

Definition sumTokens (l : list FileRecord) : Z :=
  fold_left (fun sum f => sum + tokens f) l 0.

Definition sumBytes (l : list FileRecord) : Z :=
  fold_left (fun sum f => sum + size f) l 0.

Definition byTokensDesc (a b : FileRecord) : Z := tokens b - tokens a.

Definition scan (rootDir0 : str) (fs : filesystem) (options : scanOptions)
  : outcome scanResult :=
  let allPatterns := allPatternsOf fs options in
  st <- walk rootDir0 allPatterns rootDir0 (root fs) emptyState ;;
  Returned {| files := sort byTokensDesc (w_files st);
              totalTokens := sumTokens (w_files st);
              totalBytes := sumBytes (w_files st);
              ignoredCount := w_ignoredCount st;
              binaryCount := w_binaryCount st;
              rootDir := rootDir0;
              hasClaudeignore := existsSync (claudeignore fs);
              hasGitignore := existsSync (gitignore fs) |}.

End Scanner.

(* ================================================================== *)
(** * analyzer.js *)
(* ================================================================== *)

(** ** The regular expressions of the bloat table

    The table uses literal characters, the anchors, groups, alternation and
    [?].  [toString] prints a pattern back as the source writes it; [test] is
    [RegExp.prototype.test] (no flags: [^] is the start of the input, [$] its
    end). *)

Inductive regex :=
| Eps
| Chr (c : ascii)
| Bol
| Eol
| Cat (r1 r2 : regex)
| Alt (r1 r2 : regex)
| Opt (r : regex)
| Grp (r : regex).

Module Regex.

Fixpoint source (r : regex) : str :=
  match r with
  | Eps => []
  | Chr c =>
      if Ascii.eqb c "."%char || Ascii.eqb c "/"%char
      then ["\"%char; c] else [c]
  | Bol => lit "^"
  | Eol => lit "$"
  | Cat r1 r2 => source r1 ++ source r2
  | Alt r1 r2 => source r1 ++ lit "|" ++ source r2
  | Opt r' => source r' ++ lit "?"
  | Grp r' => lit "(" ++ source r' ++ lit ")"
  end.

(** [r.toString()] *)
Definition toString (r : regex) : str := lit "/" ++ source r ++ lit "/".

(** [run r atStart s k]: [r] matches a prefix of [s], the rest of the match
    is left to [k]; [atStart] says whether the position is the start of the
    input. *)
Fixpoint run (r : regex) (atStart : bool) (s : str)
         (k : bool -> str -> bool) : bool :=
  match r with
  | Eps => k atStart s
  | Chr c =>
      match s with
      | x :: s' => Ascii.eqb x c && k false s'
      | [] => false
      end
  | Bol => atStart && k atStart s
  | Eol => match s with [] => k atStart s | _ :: _ => false end
  | Cat r1 r2 => run r1 atStart s (fun b s' => run r2 b s' k)
  | Alt r1 r2 => run r1 atStart s k || run r2 atStart s k
  | Opt r' => run r' atStart s k || k atStart s
  | Grp r' => run r' atStart s k
  end.

Fixpoint search (r : regex) (atStart : bool) (s : str) : bool :=
  run r atStart s (fun _ _ => true) ||
  match s with
  | [] => false
  | _ :: s' => search r false s'
  end.

(** [r.test(s)] *)
Definition test (r : regex) (s : str) : bool := search r true s.

Fixpoint word (s : str) : regex :=
  match s with
  | [] => Eps
  | [c] => Chr c
  | c :: s' => Cat (Chr c) (word s')
  end.

Fixpoint seq (rs : list regex) : regex :=
  match rs with
  | [] => Eps
  | [r] => r
  | r :: rs' => Cat r (seq rs')
  end.

Fixpoint alts (rs : list regex) : regex :=
  match rs with
  | [] => Eps
  | [r] => r
  | r :: rs' => Alt r (alts rs')
  end.

(** [(\/|$)] *)
Definition sep : regex := Grp (Alt (Chr "/") Eol).

(** [^name(\/|$)] *)
Definition top (nm : string) : regex := seq [Bol; word nm; sep].

(** [^(a|b|...)(\/|$)] *)
Definition tops (nms : list string) : regex :=
  seq [Bol; Grp (alts (map (fun n : string => word n) nms)); sep].

(** [^name$] *)
Definition exact (nm : string) : regex := seq [Bol; word nm; Eol].

(** [name$] *)
Definition ending (nm : string) : regex := seq [word nm; Eol].

End Regex.

Inductive Category :=
| dependencies | build | coverage | python | lockfiles
| logs | ide | os | test | cache.

Inductive Priority := critical | high | medium | low.

Module BP.
Record t := {
  pattern : regex;
  category : Category;
  reason : str;
  priority : Priority
}.
End BP.

Definition rule (p : regex) (c : Category) (r : string) (pr : Priority) : BP.t :=
  {| BP.pattern := p; BP.category := c; BP.reason := r; BP.priority := pr |}.

Definition BLOAT_PATTERNS : list BP.t :=
  [ rule (Regex.top "node_modules") dependencies "npm packages — never needed in context" critical;
    rule (Regex.top "vendor") dependencies "vendored dependencies — exclude entirely" critical;
    rule (Regex.top ".pnpm") dependencies "pnpm store — never needed in context" critical;
    rule (Regex.top "bower_components") dependencies "Bower dependencies — exclude entirely" critical;

    rule (Regex.tops ["dist"; "build"; "out"; "output"]) build "compiled output — Claude reads source, not build" critical;
    rule (Regex.top ".next") build "Next.js build cache — not source code" critical;
    rule (Regex.top ".nuxt") build "Nuxt.js build cache" critical;
    rule (Regex.top ".svelte-kit") build "SvelteKit build cache" critical;
    rule (Regex.top ".vite") build "Vite cache" high;
    rule (Regex.top ".turbo") build "Turborepo cache" high;
    rule (Regex.top ".parcel-cache") build "Parcel build cache" high;
    rule (Regex.top "storybook-static") build "Storybook build output" high;

    rule (Regex.top "coverage") coverage "test coverage reports — generated data" high;
    rule (Regex.top ".nyc_output") coverage "NYC/Istanbul coverage output" high;
    rule (Regex.top "htmlcov") coverage "Python coverage HTML report" high;

    rule (Regex.top "__pycache__") python "Python bytecode cache" critical;
    rule (Regex.ending ".pyc") python "compiled Python bytecode" critical;
    rule (Regex.tops ["venv"; ".venv"; "env"; ".env"]) python "Python virtual environment — use requirements.txt instead" critical;
    rule (Regex.top ".tox") python "tox testing environments" high;
    rule (Regex.seq [Regex.word ".egg-info"; Regex.sep]) python "Python package build metadata" high;

    rule (Regex.exact "package-lock.json") lockfiles "npm lock file — thousands of lines of generated JSON" high;
    rule (Regex.exact "yarn.lock") lockfiles "Yarn lock file — large generated file" high;
    rule (Regex.exact "pnpm-lock.yaml") lockfiles "pnpm lock file — large generated file" high;
    rule (Regex.exact "Cargo.lock") lockfiles "Rust lock file — large generated file" medium;
    rule (Regex.exact "Gemfile.lock") lockfiles "Ruby lock file — large generated file" medium;
    rule (Regex.exact "composer.lock") lockfiles "PHP Composer lock file — large generated file" medium;
    rule (Regex.exact "poetry.lock") lockfiles "Poetry lock file — large generated file" medium;
    rule (Regex.exact "uv.lock") lockfiles "uv lock file — large generated file" medium;

    rule (Regex.seq [Bol;
                     Grp (Alt (Regex.seq [Regex.word "log"; Opt (Chr "s")])
                              (Regex.seq [Regex.word ".log"; Opt (Chr "s")]));
                     Regex.sep])
         logs "log files — runtime output, not source" high;
    rule (Regex.ending ".log") logs "log file" high;

    rule (Regex.top ".idea") ide "JetBrains IDE config — not project code" medium;
    rule (Regex.top ".vscode") ide "VS Code config — not project code" medium;
    rule (Regex.top ".cursor") ide "Cursor editor config" medium;

    rule (Regex.exact ".DS_Store") os "macOS metadata file" medium;
    rule (Regex.exact "Thumbs.db") os "Windows thumbnail cache" medium;

    rule (Regex.top "__snapshots__") test "Jest snapshots — often very large" medium;
    rule (Regex.seq [Bol; Regex.word "fixture"; Opt (Chr "s"); Regex.sep])
         test "test fixtures — usually large data files" low;

    rule (Regex.top ".cache") cache "generic cache directory" high;
    rule (Regex.top "tmp") cache "temp files" high;
    rule (Regex.top ".temp") cache "temp files" high;
    rule (Regex.top "public/build") build "compiled public assets" high ].

Definition LARGE_FILE_THRESHOLD : Z := 10 * 1024.

Module Suggestion.
Record t := {
  pattern : str;
  reason : str;
  category : Category;
  priority : Priority;
  tokenSavings : Z;
  fileCount : Z
}.
End Suggestion.

(** [{ ...file, bloatReason, bloatCategory }] *)
Record BloatFile := {
  file : FileRecord;
  bloatReason : str;
  bloatCategory : Category
}.

(** A JavaScript [Map] with string keys: the entries in insertion order. *)
Module Map.
Section Map.
Variable V : Type.

Definition t := list (str * V).

Fixpoint get (k : str) (m : t) : option V :=
  match m with
  | [] => None
  | (k', v) :: m' => if Str.eqb k' k then Some v else get k m'
  end.

Definition has (k : str) (m : t) : bool :=
  match get k m with Some _ => true | None => false end.

(** [set] keeps the place of a key that is already there. *)
Fixpoint set (k : str) (v : V) (m : t) : t :=
  match m with
  | [] => [(k, v)]
  | (k', v') :: m' =>
      if Str.eqb k' k then (k, v) :: m' else (k', v') :: set k v m'
  end.

Definition values (m : t) : list V := map snd m.
End Map.
End Map.

Definition isWordChar (c : ascii) : bool :=
  let n := nat_of_ascii c in
  (((48 <=? n) && (n <=? 57)) || ((65 <=? n) && (n <=? 90))
   || ((97 <=? n) && (n <=? 122)) || (n =? 95))%nat.

Fixpoint spanWord (s : str) : str * str :=
  match s with
  | c :: s' =>
      if isWordChar c then let '(w, r) := spanWord s' in (c :: w, r)
      else ([], s)
  | [] => ([], [])
  end.

(** [s.match(/\\\.(\w+)\$/)]: the first group of the leftmost match. *)
Fixpoint extMatch (s : str) : option str :=
  match s with
  | [] => None
  | c :: s' =>
      let here :=
        if Ascii.eqb c "\"%char then
          match s' with
          | d :: s'' =>
              if Ascii.eqb d "."%char then
                match spanWord s'' with
                | ((_ :: _) as w, e :: _) =>
                    if Ascii.eqb e "$"%char then Some w else None
                | _ => None
                end
              else None
          | [] => None
          end
        else None in
      match here with
      | Some w => Some w
      | None => extMatch s'
      end
  end.

Definition getIgnorePattern (relPath0 : str) (bpPattern : regex) : str :=
  let parts := Str.split "/"%char (Str.slashes relPath0) in
  let topLevel := hd [] parts in
  match extMatch (Regex.toString bpPattern) with
  | Some e => lit "*." ++ e
  | None => topLevel ++ (if (1 <? List.length parts)%nat then lit "/" else [])
  end.

Record analyzeState := {
  a_bloatFiles : list BloatFile;
  a_largeFiles : list FileRecord;
  a_suggestions : Map.t Suggestion.t
}.

(** The suggestion [suggestions.set(key, ...)] opens for a rule. *)
Definition fresh (f : FileRecord) (bp : BP.t) : Suggestion.t :=
  {| Suggestion.pattern := getIgnorePattern (relPath f) (BP.pattern bp);
     Suggestion.reason := BP.reason bp;
     Suggestion.category := BP.category bp;
     Suggestion.priority := BP.priority bp;
     Suggestion.tokenSavings := 0;
     Suggestion.fileCount := 0 |}.

(** [s.tokenSavings += file.tokens; s.fileCount++] on the suggestion held by
    the map. *)
Definition bump (f : FileRecord) (s : Suggestion.t) : Suggestion.t :=
  {| Suggestion.pattern := Suggestion.pattern s;
     Suggestion.reason := Suggestion.reason s;
     Suggestion.category := Suggestion.category s;
     Suggestion.priority := Suggestion.priority s;
     Suggestion.tokenSavings := Suggestion.tokenSavings s + tokens f;
     Suggestion.fileCount := Suggestion.fileCount s + 1 |}.

(** The body of [if (bp.pattern.test(file.relPath))], up to the [break]. *)
Definition record_match (f : FileRecord) (bp : BP.t) (st : analyzeState)
  : analyzeState :=
  let key := Regex.toString (BP.pattern bp) in
  let suggestions1 :=
    if negb (Map.has key (a_suggestions st))
    then Map.set key (fresh f bp) (a_suggestions st)
    else a_suggestions st in
  let suggestions2 :=
    match Map.get key suggestions1 with
    | Some s => Map.set key (bump f s) suggestions1
    | None => suggestions1
    end in
  {| a_bloatFiles := a_bloatFiles st ++
                     [ {| file := f;
                          bloatReason := BP.reason bp;
                          bloatCategory := BP.category bp |} ];
     a_largeFiles := a_largeFiles st;
     a_suggestions := suggestions2 |}.

(** The inner loop over the table: the state after it, and [matched]. *)
Fixpoint match_rules (f : FileRecord) (rules : list BP.t) (st : analyzeState)
  : analyzeState * bool :=
  match rules with
  | [] => (st, false)
  | bp :: rest =>
      if Regex.test (BP.pattern bp) (relPath f)
      then (record_match f bp st, true)
      else match_rules f rest st
  end.

(** The body of the outer loop over the files. *)
Definition classify (st : analyzeState) (f : FileRecord) : analyzeState :=
  let '(st1, matched) := match_rules f BLOAT_PATTERNS st in
  if negb matched && negb (isBinary f) && (LARGE_FILE_THRESHOLD <? size f)
  then {| a_bloatFiles := a_bloatFiles st1;
          a_largeFiles := a_largeFiles st1 ++ [f];
          a_suggestions := a_suggestions st1 |}
  else st1.

Definition initialState : analyzeState :=
  {| a_bloatFiles := []; a_largeFiles := []; a_suggestions := [] |}.

(** The state when the outer loop is over. *)
Definition classified (fs : list FileRecord) : analyzeState :=
  fold_left classify fs initialState.

Definition priorityOrder (p : Priority) : Z :=
  match p with
  | critical => 0
  | high => 1
  | medium => 2
  | low => 3
  end.

Definition bySuggestion (a b : Suggestion.t) : Z :=
  let pDiff := priorityOrder (Suggestion.priority a)
               - priorityOrder (Suggestion.priority b) in
  if negb (pDiff =? 0) then pDiff
  else Suggestion.tokenSavings b - Suggestion.tokenSavings a.

(** The analysis, without [reductionPercent] (a rounded floating-point
    quotient that no property below reads). *)
Module Analysis.
Record t := {
  suggestions : list Suggestion.t;
  bloatFiles : list BloatFile;
  largeFiles : list FileRecord;
  bloatTokens : Z;
  cleanTokens : Z;
  totalTokens : Z
}.
End Analysis.

Definition analyze (scanned : scanResult) : Analysis.t :=
  let st := classified (files scanned) in
  let sortedSuggestions := sort bySuggestion (Map.values (a_suggestions st)) in
  let largeSorted := sort byTokensDesc (a_largeFiles st) in
  let bloatTokens0 :=
    fold_left (fun sum f => sum + tokens (file f)) (a_bloatFiles st) 0 in
  let cleanTokens0 := totalTokens scanned - bloatTokens0 in
  {| Analysis.suggestions := sortedSuggestions;
     Analysis.bloatFiles := a_bloatFiles st;
     Analysis.largeFiles := firstn 20 largeSorted;
     Analysis.bloatTokens := bloatTokens0;
     Analysis.cleanTokens := cleanTokens0;
     Analysis.totalTokens := totalTokens scanned |}.

(** ** [getCategoryBreakdown] *)

(** The text of a category, the key of [byCategory]. *)
Definition categoryName (c : Category) : str :=
  match c with
  | dependencies => lit "dependencies"
  | build => lit "build"
  | coverage => lit "coverage"
  | python => lit "python"
  | lockfiles => lit "lockfiles"
  | logs => lit "logs"
  | ide => lit "ide"
  | os => lit "os"
  | test => lit "test"
  | cache => lit "cache"
  end.

Module Breakdown.
Record t := {
  tokenSavings : Z;
  fileCount : Z;
  patterns : list str
}.
End Breakdown.

(** The body of the loop of [getCategoryBreakdown]; the object [byCategory]
    is the map of its own properties, in insertion order. *)
Definition breakdown_step (byCategory : Map.t Breakdown.t) (s : Suggestion.t)
  : Map.t Breakdown.t :=
  let key := categoryName (Suggestion.category s) in
  let byCategory1 :=
    if negb (Map.has key byCategory)
    then Map.set key {| Breakdown.tokenSavings := 0;
                        Breakdown.fileCount := 0;
                        Breakdown.patterns := [] |} byCategory
    else byCategory in
  match Map.get key byCategory1 with
  | Some b =>
      Map.set key
        {| Breakdown.tokenSavings :=
             Breakdown.tokenSavings b + Suggestion.tokenSavings s;
           Breakdown.fileCount :=
             Breakdown.fileCount b + Suggestion.fileCount s;
           Breakdown.patterns :=
             Breakdown.patterns b ++ [Suggestion.pattern s] |}
        byCategory1
  | None => byCategory1
  end.

Definition getCategoryBreakdown (analysis : Analysis.t) : Map.t Breakdown.t :=
  fold_left breakdown_step (Analysis.suggestions analysis) [].

(* ================================================================== *)
(** * formatter.js: the grade *)
(* ================================================================== *)

(** The [chalk] styles [gradeContext] hands out. *)
Inductive Color := green | cyan | yellow | red | boldRed.

Module Grade.
Record t := {
  label : str;
  color : Color;
  note : str
}.
End Grade.

Definition grade (l : string) (c : Color) (n : string) : Grade.t :=
  {| Grade.label := l; Grade.color := c; Grade.note := n |}.

(** [gradeContext], on the integer that [Math.round] made of the
    percentage. *)
Definition gradeContext (bloatPercent : Z) : Grade.t :=
  if bloatPercent =? 0 then grade "A+" green "Perfect"
  else if bloatPercent <? 5 then grade "A" green "Very clean"
  else if bloatPercent <? 15 then grade "B" cyan "Some bloat"
  else if bloatPercent <? 30 then grade "C" yellow "Notable bloat"
  else if bloatPercent <? 50 then grade "D" red "Significant bloat"
  else grade "F" boldRed "Critical bloat — fix immediately".

(* ================================================================== *)
(** * Vocabulary of the properties *)
(* ================================================================== *)

(** The specification's reading of a rule [prefix/*]: the candidate is a
    direct child of the directory [prefix], that is [prefix/segment] with one
    non-empty segment. *)
Definition direct_child (prefix cand : str) : bool :=
  Str.startsWith cand (prefix ++ lit "/") &&
  (let segment := skipn (List.length prefix + 1) cand in
   negb (Str.eqb segment []) && negb (Str.includesChar segment "/"%char)).


(** Entry names as a filesystem gives them: no separator inside. *)
Fixpoint plain_names (e : dirent) : bool :=
  negb (Str.includesChar (entry_name e) "/"%char) &&
  match e with
  | Dir _ (Returned entries) => forallb plain_names entries
  | _ => true
  end.

(** The first rule of the table that matches a file, if any. *)
Definition first_rule (f : FileRecord) : option BP.t :=
  find (fun bp => Regex.test (BP.pattern bp) (relPath f)) BLOAT_PATTERNS.

(** The key of a rule in the map of suggestions. *)
Definition key_of (bp : BP.t) : str := Regex.toString (BP.pattern bp).

(** The entry of [bloatFiles] a file gives rise to: one, under its first
    matching rule, or none. *)
Definition tag (f : FileRecord) : list BloatFile :=
  match first_rule f with
  | Some bp => [ {| file := f;
                    bloatReason := BP.reason bp;
                    bloatCategory := BP.category bp |} ]
  | None => []
  end.

(** [f] contributes to the suggestion kept under the key [k]. *)
Definition contributes (k : str) (f : FileRecord) : bool :=
  match first_rule f with
  | Some bp => Str.eqb (key_of bp) k
  | None => false
  end.

Definition contributors (k : str) (fs : list FileRecord) : list FileRecord :=
  filter (contributes k) fs.

(** No rule of the table matches the file. *)
Definition unmatched (f : FileRecord) : bool :=
  match first_rule f with
  | None => true
  | Some _ => false
  end.

Fixpoint distinct (l : list str) : bool :=
  match l with
  | [] => true
  | x :: l' => negb (existsb (Str.eqb x) l') && distinct l'
  end.

Definition total {A} (x : A -> Z) (l : list A) : Z :=
  fold_right (fun a acc => x a + acc) 0 l.

(** The order the specification gives to the suggestions. *)
Definition tier_then_savings (a b : Suggestion.t) : Prop :=
  priorityOrder (Suggestion.priority a) < priorityOrder (Suggestion.priority b)
  \/ (priorityOrder (Suggestion.priority a)
      = priorityOrder (Suggestion.priority b)
      /\ Suggestion.tokenSavings b <= Suggestion.tokenSavings a).

(** What the map of suggestions holds once the files [fs] are classified:
    under a key, the count and the token total of the contributors of that
    key, and the category, priority and reason of a rule with that key;
    no entry for a key without contributors; no key twice. *)
Definition counted (fs : list FileRecord) (m : Map.t Suggestion.t) : Prop :=
  NoDup (map fst m) /\
  forall k,
    match Map.get k m with
    | Some s =>
        Suggestion.fileCount s = Z.of_nat (List.length (contributors k fs)) /\
        Suggestion.tokenSavings s = total tokens (contributors k fs) /\
        exists bp,
          In bp BLOAT_PATTERNS /\ key_of bp = k /\
          Suggestion.category s = BP.category bp /\
          Suggestion.priority s = BP.priority bp /\
          Suggestion.reason s = BP.reason bp
    | None => contributors k fs = []
    end.

(** No rule of [pats] matches the relative path [a]. *)
Definition unignored (E : str -> str -> option bool) (pats : list str)
           (a : str) : Prop :=
  isIgnored E a pats = Returned false.

(** Every directory above the relative path [d] was kept. *)
Definition kept_above (E : str -> str -> option bool) (pats : list str)
           (d : str) : Prop :=
  forall a rest, d = a ++ lit "/" ++ rest -> unignored E pats a.

(** The directory [dir] of a walk is the root, or a kept directory below
    kept directories. *)
Definition reached (E : str -> str -> option bool) (rootDir0 : str)
           (pats : list str) (dir : str) : Prop :=
  dir = rootDir0 \/
  exists d, dir = rootDir0 ++ lit "/" ++ d /\
            unignored E pats d /\ kept_above E pats d.

Definition plain_tree (fs : filesystem) : bool :=
  match root fs with
  | Returned entries => forallb plain_names entries
  | Thrown _ => true
  end.

(** Every entry of a tree, with its full path. *)
Fixpoint below (dir : str) (e : dirent) : list (str * dirent) :=
  (path_join dir (entry_name e), e) ::
  match e with
  | Dir n (Returned entries) => flat_map (below (path_join dir n)) entries
  | _ => []
  end.

Definition tree (dir : str) (listing : outcome (list dirent))
  : list (str * dirent) :=
  match listing with
  | Returned entries => flat_map (below dir) entries
  | Thrown _ => []
  end.

(** The files of category [c] among suggestions, for the breakdown. *)
Definition of_category (c : Category) (l : list Suggestion.t)
  : list Suggestion.t :=
  filter (fun s => Str.eqb (categoryName (Suggestion.category s))
                           (categoryName c)) l.

(** The place of a grade on the scale from [A+] (0) to [F] (5); 6 for a
    label that is no grade. *)
Definition gradeRank (g : Grade.t) : Z :=
  let l := Grade.label g in
  if Str.eqb l (lit "A+") then 0
  else if Str.eqb l (lit "A") then 1
  else if Str.eqb l (lit "B") then 2
  else if Str.eqb l (lit "C") then 3
  else if Str.eqb l (lit "D") then 4
  else if Str.eqb l (lit "F") then 5
  else 6.

(** A segment that [path.join] leaves as it is. *)
Definition proper_segment (seg : str) : bool :=
  negb (Str.eqb seg []) && negb (Str.eqb seg (lit "."))
  && negb (Str.eqb seg (lit "..")).

(** A root as [path.resolve] returns it, the filesystem root apart: a
    leading separator, then proper segments with one separator between
    them and none at the end. *)
Definition resolved_root (r : str) : bool :=
  match Str.split "/"%char r with
  | [] :: seg :: segs => forallb proper_segment (seg :: segs)
  | _ => false
  end.

(** Entry names as [readdirSync] gives them: one proper segment each. *)
Fixpoint proper_names (e : dirent) : bool :=
  proper_segment (entry_name e) &&
  negb (Str.includesChar (entry_name e) "/"%char) &&
  match e with
  | Dir _ (Returned entries) => forallb proper_names entries
  | _ => true
  end.

Definition proper_tree (fs : filesystem) : bool :=
  match root fs with
  | Returned entries => forallb proper_names entries
  | Thrown _ => true
  end.

(** ** Inputs for the examples *)

Definition demo_record (rel : string) (tk : Z) : FileRecord :=
  {| path := lit "/p/" ++ lit rel; relPath := rel; name := rel;
     ext := lit ".js"; size := 4 * tk; tokens := tk; isBinary := false |}.

Definition demo_inventory : scanResult :=
  {| files := [ demo_record "node_modules/x.js" 125;
                demo_record "src/index.js" 10;
                demo_record "dist/a.js" 7;
                demo_record "node_modules/y.js" 5;
                demo_record "logs/a.log" 3 ];
     totalTokens := 150; totalBytes := 600;
     ignoredCount := 1; binaryCount := 0;
     rootDir := lit "/p";
     hasClaudeignore := false; hasGitignore := false |}.

Definition missing_root_fs : filesystem :=
  {| root := Thrown (IOError ENOENT);
     claudeignore := Absent;
     gitignore := Absent |}.

Definition broken_rule_fs : filesystem :=
  {| root := Returned [ File "a.txt" (Returned 3) (Returned (lit "abc")) ];
     claudeignore := Present (Returned (lit "*("));
     gitignore := Absent |}.

Definition unreadable_fs : filesystem :=
  {| root := Returned
       [ File "gone.txt" (Thrown (IOError ENOENT)) (Thrown (IOError ENOENT));
         File "secret.txt" (Returned 12) (Thrown (IOError EACCES)) ];
     claudeignore := Absent;
     gitignore := Absent |}.

Definition demo_fs : filesystem :=
  {| root := Returned
       [ Dir "node_modules" (Returned [ File "x.js" (Returned 500) (Returned (repeat "a"%char 500)) ]);
         Dir "src" (Returned [ File "index.js" (Returned 40) (Returned (repeat "b"%char 40)) ]);
         File "IMAGE.PNG" (Returned 2000) (Returned (repeat "c"%char 10));
         Dir ".git" (Returned [ File "HEAD" (Returned 5) (Returned (lit "ref")) ]) ];
     claudeignore := Absent;
     gitignore := Absent |}.

(* ================================================================== *)
(** * Examples *)
(* ================================================================== *)

(** The table, pattern by pattern, as the source writes it. *)
Example BLOAT_PATTERNS_sources :
  map (fun bp => Regex.toString (BP.pattern bp)) BLOAT_PATTERNS =
  map lit
  [ "/^node_modules(\/|$)/"; "/^vendor(\/|$)/"; "/^\.pnpm(\/|$)/";
    "/^bower_components(\/|$)/";
    "/^(dist|build|out|output)(\/|$)/"; "/^\.next(\/|$)/"; "/^\.nuxt(\/|$)/";
    "/^\.svelte-kit(\/|$)/"; "/^\.vite(\/|$)/"; "/^\.turbo(\/|$)/";
    "/^\.parcel-cache(\/|$)/"; "/^storybook-static(\/|$)/";
    "/^coverage(\/|$)/"; "/^\.nyc_output(\/|$)/"; "/^htmlcov(\/|$)/";
    "/^__pycache__(\/|$)/"; "/\.pyc$/"; "/^(venv|\.venv|env|\.env)(\/|$)/";
    "/^\.tox(\/|$)/"; "/\.egg-info(\/|$)/";
    "/^package-lock\.json$/"; "/^yarn\.lock$/"; "/^pnpm-lock\.yaml$/";
    "/^Cargo\.lock$/"; "/^Gemfile\.lock$/"; "/^composer\.lock$/";
    "/^poetry\.lock$/"; "/^uv\.lock$/";
    "/^(logs?|\.logs?)(\/|$)/"; "/\.log$/";
    "/^\.idea(\/|$)/"; "/^\.vscode(\/|$)/"; "/^\.cursor(\/|$)/";
    "/^\.DS_Store$/"; "/^Thumbs\.db$/";
    "/^__snapshots__(\/|$)/"; "/^fixtures?(\/|$)/";
    "/^\.cache(\/|$)/"; "/^tmp(\/|$)/"; "/^\.temp(\/|$)/";
    "/^public\/build(\/|$)/" ].
Proof. reflexivity. Qed.

Example split_ex : Str.split "/"%char "a//b" = [lit "a"; []; lit "b"].
Proof. reflexivity. Qed.

Example glob_ex :
  matchesPattern Fragment.test "src/app.test.js" "*.test.*" = Returned true.
Proof. reflexivity. Qed.

Example glob_ex2 :
  matchesPattern Fragment.test "src/app.js" "*.test.*" = Returned false.
Proof. reflexivity. Qed.

Example star_slash_ex :
  matchesPattern Fragment.test "a/b/c" "a/*" = Returned true.
Proof. reflexivity. Qed.

Example est_ex : map estimateTokens [0; 1; 4; 5; 500; 40] = [0; 1; 1; 2; 125; 10].
Proof. reflexivity. Qed.

Example ext_ex :
  map path_extname [lit "IMAGE.PNG"; lit ".bashrc"; lit ".."; lit "a.b.c"; lit "x."; lit "..a"; lit "Makefile"]
  = [lit ".PNG"; []; []; lit ".c"; lit "."; lit ".a"; []].
Proof. reflexivity. Qed.

Example scan_ex :
  match scan Fragment.test "/p" demo_fs defaultOptions with
  | Returned r => (map (fun f => (relPath f, tokens f, isBinary f)) (files r), totalTokens r, ignoredCount r, binaryCount r)
  | Thrown _ => ([], 0, 0, 0)
  end = ([(lit "node_modules/x.js", 125, false); (lit "src/index.js", 10, false); (lit "IMAGE.PNG", 0, true)], 135, 1, 1).
Proof. vm_compute. reflexivity. Qed.

Example regex_ex :
  map (fun p : string => map (fun bp => BP.category bp) (filter (fun bp => Regex.test (BP.pattern bp) p) BLOAT_PATTERNS))
   ["node_modules/x.js"; "src/index.js"; "logs/a.log"; "a/b.pyc"; "distx/a"; "dist"; "x.egg-info/PKG"; "fixture/a"; "fixtures"; "src/dist/a"]
  = [[dependencies]; []; [logs; logs]; [python]; []; [build]; [python]; [test]; [test]; []].
Proof. vm_compute. reflexivity. Qed.

Example analyze_ex :
  match scan Fragment.test "/p" demo_fs defaultOptions with
  | Returned r =>
      let a := analyze r in
      (map (fun s => (Suggestion.pattern s, Suggestion.category s, Suggestion.tokenSavings s, Suggestion.fileCount s)) (Analysis.suggestions a),
       Analysis.bloatTokens a, Analysis.cleanTokens a)
  | Thrown _ => ([], 0, 0)
  end = ([(lit "node_modules/", dependencies, 125, 1)], 125, 10).
Proof. vm_compute. reflexivity. Qed.

Example ignore_pattern_ex :
  map (fun bp => getIgnorePattern "x" (BP.pattern bp)) (firstn 2 (skipn 20 BLOAT_PATTERNS)) = [lit "*.json"; lit "*.lock"].
Proof. vm_compute. reflexivity. Qed.

(* ================================================================== *)
(** * Strings: the tests against their meaning *)
(* ================================================================== *)

Lemma eqb_refl (a : str) : Str.eqb a a = true.
Proof.
  induction a as [|x a IH]; simpl; [reflexivity|].
  now rewrite Ascii.eqb_refl.
Qed.

Lemma eqb_eq (a b : str) : Str.eqb a b = true <-> a = b.
Proof.
  split; [|intros ->; apply eqb_refl].
  revert b; induction a as [|x a IH]; intros [|y b]; simpl; try discriminate; auto.
  intros H. apply andb_true_iff in H as [Hx Hab].
  apply Ascii.eqb_eq in Hx. f_equal; auto.
Qed.

Lemma eqb_neq (a b : str) : Str.eqb a b = false <-> a <> b.
Proof.
  split.
  - intros H E. apply eqb_eq in E. congruence.
  - intros H. destruct (Str.eqb a b) eqn:E; [|reflexivity].
    apply eqb_eq in E. contradiction.
Qed.

Lemma startsWith_iff (s p : str) :
  Str.startsWith s p = true <-> exists r, s = p ++ r.
Proof.
  revert s; induction p as [|y p IH]; intros s; simpl.
  - split; [intros _; now exists s | reflexivity].
  - destruct s as [|x s].
    + split; [discriminate | intros [r H]; discriminate].
    + rewrite andb_true_iff, Ascii.eqb_eq, IH. split.
      * intros [-> [r ->]]. now exists r.
      * intros [r H]. injection H as -> ->. split; [reflexivity | now exists r].
Qed.

Lemma startsWith_app (p r : str) : Str.startsWith (p ++ r) p = true.
Proof. apply startsWith_iff. now exists r. Qed.

Lemma endsWith_iff (s p : str) :
  Str.endsWith s p = true <-> exists q, s = q ++ p.
Proof.
  unfold Str.endsWith. rewrite startsWith_iff. split.
  - intros [r H]. exists (rev r).
    rewrite <- (rev_involutive s), H, rev_app_distr, rev_involutive.
    reflexivity.
  - intros [q ->]. exists (rev q). apply rev_app_distr.
Qed.

Lemma includesChar_iff (s : str) (c : ascii) :
  Str.includesChar s c = true <-> In c s.
Proof.
  unfold Str.includesChar. rewrite existsb_exists. split.
  - intros [x [Hx E]]. apply Ascii.eqb_eq in E. now subst.
  - intros H. exists c. split; [assumption | apply Ascii.eqb_refl].
Qed.

Lemma path_relative_below (rootDir0 x : str) :
  path_relative rootDir0 (rootDir0 ++ lit "/" ++ x) = x.
Proof.
  unfold path_relative.
  replace (rootDir0 ++ lit "/" ++ x) with ((rootDir0 ++ lit "/") ++ x)
    by now rewrite <- app_assoc.
  rewrite startsWith_app.
  replace (List.length rootDir0 + 1)%nat with (List.length (rootDir0 ++ lit "/"))
    by (rewrite length_app; reflexivity).
  now rewrite skipn_app, skipn_all, Nat.sub_diag.
Qed.

(* ================================================================== *)
(** * The token estimate *)
(* ================================================================== *)

Lemma estimateTokens_div (n : Z) : estimateTokens n = (n + 3) / 4.
Proof.
  unfold estimateTokens, CHARS_PER_TOKEN, Qceiling, Qfloor, Qdiv, Qinv, Qopp, Qmult, inject_Z.
  cbn -[Z.div Z.mul Z.opp Z.add].
  replace (- (n * 1)) with (- n) by lia.
  assert (H := Z.div_mod (- n) 4 ltac:(lia)).
  assert (H' := Z.mod_pos_bound (- n) 4 ltac:(lia)).
  apply Z.div_unique with (r := 3 - (- n) mod 4); lia.
Qed.


(* ================================================================== *)
(** * Rules that end in [/*] *)
(* ================================================================== *)

Lemma endsWith_slash_includes (p q : str) :
  Str.endsWith p (lit "/" ++ q) = true -> Str.includesChar p "/"%char = true.
Proof.
  intros H. apply endsWith_iff in H as [r ->].
  apply includesChar_iff, in_or_app. right. now left.
Qed.

(** C3, as the specification states it, fails: the rule [a/*] matches
    [a/b/c], which lies two segments below [a]. *)
Lemma star_rule_matches_deeper :
  Str.endsWith (lit "a/*") (lit "/*") = true /\
  matchesPattern Fragment.test (lit "a/b/c") (lit "a/*") = Returned true /\
  direct_child (Str.dropLast 2 (lit "a/*")) (lit "a/b/c") = false.
Proof. repeat split. Qed.

(** C3, amended: a rule that ends in [/*] (and does not begin with [**/])
    matches exactly the candidates that begin with the prefix directory and
    a separator, at any depth below it; direct children are among them, the
    prefix directory itself is not. *)
Theorem star_rule_matches_below
  (E : str -> str -> option bool) (cand rule : str) :
  let p := Str.slashes rule in
  let prefix := Str.dropLast 2 p in
  Str.endsWith p (lit "/*") = true ->
  Str.startsWith p (lit "**/") = false ->
  exists b,
    matchesPattern E cand rule = Returned b /\
    (b = true <-> exists rest, Str.slashes cand = prefix ++ lit "/" ++ rest) /\
    (direct_child prefix (Str.slashes cand) = true -> b = true) /\
    (Str.slashes cand = prefix -> b = false).
Proof.
  intros p prefix Hend Hstar.
  exists (Str.startsWith (Str.slashes cand) (prefix ++ lit "/")).
  split; [|split; [|split]].
  - unfold matchesPattern. fold p.
    rewrite (endsWith_slash_includes p (lit "*") Hend). simpl negb. cbv iota.
    rewrite Hstar, Hend. reflexivity.
  - rewrite startsWith_iff. split; intros [r H]; exists r; rewrite H;
      now rewrite <- app_assoc.
  - unfold direct_child. intros H. now apply andb_true_iff in H as [H _].
  - intros ->. apply not_true_is_false. intros H.
    apply startsWith_iff in H as [r H].
    apply (f_equal (@List.length ascii)) in H.
    rewrite !length_app in H. simpl in H. lia.
Qed.

Lemma star_rule_matches_below_witness :
  exists b,
    matchesPattern Fragment.test (lit "a/b/c") (lit "a/*") = Returned b /\
    (b = true <-> exists rest, lit "a/b/c" = lit "a" ++ lit "/" ++ rest) /\
    (direct_child (lit "a") (lit "a/b/c") = true -> b = true) /\
    (lit "a/b/c" = lit "a" -> b = false).
Proof.
  exact (star_rule_matches_below Fragment.test (lit "a/b/c") (lit "a/*")
           eq_refl eq_refl).
Defined.

(* ================================================================== *)
(** * The walk: invariants of the inventory *)
(* ================================================================== *)

Lemma dirent_induction (P : dirent -> Prop) :
  (forall n st c, P (File n st c)) ->
  (forall n es, Forall P es -> P (Dir n (Returned es))) ->
  (forall n e, P (Dir n (Thrown e))) ->
  (forall n, P (Other n)) ->
  forall e, P e.
Proof.
  intros HFile HDir HDirErr HOther.
  fix IH 1. intros [n st c | n [es|err] | n].
  - apply HFile.
  - apply HDir. induction es as [|x es IHes]; constructor.
    + apply IH.
    + exact IHes.
  - apply HDirErr.
  - apply HOther.
Qed.

Lemma bind_returned {A B} (m : outcome A) (k : A -> outcome B) (b : B) :
  bind m k = Returned b -> exists a, m = Returned a /\ k a = Returned b.
Proof. destruct m as [a|e]; simpl; [eauto | discriminate]. Qed.

Lemma bind_thrown {A B} (m : outcome A) (k : A -> outcome B) (e : exn) :
  bind m k = Thrown e -> m = Thrown e \/ exists a, m = Returned a /\ k a = Thrown e.
Proof. destruct m as [a|e']; simpl; [eauto | intros [= ->]; now left]. Qed.

Section WalkInvariant.

Variable E : str -> str -> option bool.
Variable rootDir0 : str.
Variable pats : list str.

(** [Q dir e]: what is known of an entry [e] listed in [dir];
    [P f]: what is to hold of every record. *)
Variable Q : str -> dirent -> Prop.
Variable P : FileRecord -> Prop.

Let rel (dir : str) (e : dirent) : str :=
  path_relative rootDir0 (path_join dir (entry_name e)).

Hypothesis Q_down : forall dir n es,
  Q dir (Dir n (Returned es)) ->
  isIgnored E (rel dir (Dir n (Returned es))) pats = Returned false ->
  Forall (Q (path_join dir n)) es.

Hypothesis P_file : forall dir n stat content,
  Q dir (File n stat content) ->
  isIgnored E (rel dir (File n stat content)) pats = Returned false ->
  P (record_of (path_join dir n) (rel dir (File n stat content)) n stat content).

Lemma visit_inv (e : dirent) :
  forall dir st st',
    Q dir e ->
    visit E rootDir0 pats dir e st = Returned st' ->
    Forall P (w_files st) -> Forall P (w_files st').
Proof.
  induction e as [n stat content | n es IH | n err | n] using dirent_induction;
    intros dir st st' HQ Hv HP; simpl in Hv;
    apply bind_returned in Hv as [ign [Hign Hv]];
    destruct ign; try (injection Hv as <-; exact HP).
  - injection Hv as <-. simpl. apply Forall_app. split; [exact HP|].
    constructor; [|constructor]. now apply P_file.
  - assert (HQs := Q_down HQ Hign). clear HQ Hign.
    revert st HP Hv. induction es as [|x es IHes]; intros st HP Hv; simpl in Hv.
    + now injection Hv as <-.
    + apply bind_returned in Hv as [st1 [H1 H2]].
      inversion IH; inversion HQs; subst. eauto.
Qed.

Lemma for_each_visit_inv (es : list dirent) :
  forall dir st st',
    Forall (Q dir) es ->
    for_each (visit E rootDir0 pats dir) es st = Returned st' ->
    Forall P (w_files st) -> Forall P (w_files st').
Proof.
  induction es as [|x es IH]; intros dir st st' HQ Hv HP; simpl in Hv.
  - now injection Hv as <-.
  - apply bind_returned in Hv as [st1 [H1 H2]]. inversion HQ; subst.
    eapply IH; eauto. eapply visit_inv; eauto.
Qed.

End WalkInvariant.

(** ** The sort keeps the elements *)

Lemma insert_perm {A} (cmp : A -> A -> Z) (x : A) (l : list A) :
  Permutation (insert cmp x l) (x :: l).
Proof.
  induction l as [|y l IH]; simpl; [reflexivity|].
  destruct (cmp x y <=? 0); [reflexivity|].
  rewrite IH. apply perm_swap.
Qed.

Lemma sort_perm {A} (cmp : A -> A -> Z) (l : list A) :
  Permutation (sort cmp l) l.
Proof.
  induction l as [|x l IH]; simpl; [reflexivity|].
  unfold sort in IH. rewrite insert_perm. now constructor.
Qed.

Lemma sort_Forall {A} (cmp : A -> A -> Z) (P : A -> Prop) (l : list A) :
  Forall P l -> Forall P (sort cmp l).
Proof.
  intros H. eapply Permutation_Forall; [|exact H].
  symmetry. apply sort_perm.
Qed.

(** ** From the walk to the scan *)

Lemma scan_returned (E : str -> str -> option bool) (rootDir0 : str)
      (fs : filesystem) (options : scanOptions) (r : scanResult) :
  scan E rootDir0 fs options = Returned r ->
  exists st,
    walk E rootDir0 (allPatternsOf fs options) rootDir0 (root fs) emptyState
      = Returned st /\
    files r = sort byTokensDesc (w_files st) /\
    totalTokens r = sumTokens (w_files st) /\
    totalBytes r = sumBytes (w_files st) /\
    ignoredCount r = w_ignoredCount st /\
    binaryCount r = w_binaryCount st.
Proof.
  unfold scan. intros H. apply bind_returned in H as [st [Hw H]].
  exists st. injection H as <-. simpl. tauto.
Qed.

Lemma scan_inv (E : str -> str -> option bool) (rootDir0 : str)
      (fs : filesystem) (options : scanOptions)
      (Q : str -> dirent -> Prop) (P : FileRecord -> Prop) :
  let pats := allPatternsOf fs options in
  let rel dir e := path_relative rootDir0 (path_join dir (entry_name e)) in
  (forall dir n es,
      Q dir (Dir n (Returned es)) ->
      isIgnored E (rel dir (Dir n (Returned es))) pats = Returned false ->
      Forall (Q (path_join dir n)) es) ->
  (forall dir n stat content,
      Q dir (File n stat content) ->
      isIgnored E (rel dir (File n stat content)) pats = Returned false ->
      P (record_of (path_join dir n) (rel dir (File n stat content))
                   n stat content)) ->
  (forall es, root fs = Returned es -> Forall (Q rootDir0) es) ->
  forall r, scan E rootDir0 fs options = Returned r -> Forall P (files r).
Proof.
  intros pats rel Hdown Hfile Hroot r Hscan.
  apply scan_returned in Hscan as [st [Hw [-> _]]].
  apply sort_Forall. unfold walk in Hw.
  destruct (root fs) as [es|e] eqn:Hr.
  - eapply for_each_visit_inv with (Q := Q) (st := emptyState);
      [exact Hdown | exact Hfile | now apply Hroot | exact Hw | constructor].
  - injection Hw as <-. constructor.
Qed.

(** Records whose shape alone is at stake: nothing is needed of the place
    of the entry. *)
Lemma scan_records (E : str -> str -> option bool) (rootDir0 : str)
      (fs : filesystem) (options : scanOptions) (P : FileRecord -> Prop) :
  (forall fullPath rel n stat content,
      P (record_of fullPath rel n stat content)) ->
  forall r, scan E rootDir0 fs options = Returned r -> Forall P (files r).
Proof.
  intros HP r Hscan.
  eapply scan_inv with (Q := fun _ _ => True); [| | |exact Hscan].
  - intros. apply Forall_forall. auto.
  - intros. apply HP.
  - intros. apply Forall_forall. auto.
Qed.

(* ================================================================== *)
(** * Binary files *)
(* ================================================================== *)

Lemma record_of_binary (fullPath rel n : str) (stat : outcome Z)
      (content : outcome str) :
  let f := record_of fullPath rel n stat content in
  isBinary f = true -> tokens f = 0.
Proof.
  unfold record_of.
  destruct (BINARY_EXTENSIONS_has (Str.toLowerCase (path_extname n))) eqn:Hb;
    destruct stat; destruct content; simpl; intros; congruence.
Qed.

Lemma sumTokens_from (l : list FileRecord) (a : Z) :
  fold_left (fun sum f => sum + tokens f) l a = a + sumTokens l.
Proof.
  unfold sumTokens. revert a. induction l as [|f l IH]; intros a; simpl.
  - lia.
  - rewrite (IH (a + tokens f)), (IH (tokens f)). lia.
Qed.

Lemma sumTokens_cons (f : FileRecord) (l : list FileRecord) :
  sumTokens (f :: l) = tokens f + sumTokens l.
Proof. unfold sumTokens at 1. simpl. now rewrite sumTokens_from. Qed.

Lemma sumTokens_perm (l l' : list FileRecord) :
  Permutation l l' -> sumTokens l = sumTokens l'.
Proof.
  induction 1; rewrite ?sumTokens_cons; lia.
Qed.

Lemma sumTokens_text (l : list FileRecord) :
  Forall (fun f => isBinary f = true -> tokens f = 0) l ->
  sumTokens l = sumTokens (filter (fun f => negb (isBinary f)) l).
Proof.
  induction 1 as [|f l Hf Hl IH]; [reflexivity|].
  simpl. destruct (isBinary f); simpl; rewrite !sumTokens_cons.
  - rewrite Hf by reflexivity. lia.
  - lia.
Qed.

(** C7: in the inventory of a scan a binary file has token count 0, and the
    token total of the scan is the total over its non-binary files. *)
Theorem binary_files_have_no_tokens
  (E : str -> str -> option bool) (rootDir0 : str) (fs : filesystem)
  (options : scanOptions) (r : scanResult) :
  scan E rootDir0 fs options = Returned r ->
  Forall (fun f => isBinary f = true -> tokens f = 0) (files r) /\
  totalTokens r = sumTokens (filter (fun f => negb (isBinary f)) (files r)).
Proof.
  intros Hscan.
  assert (HF : Forall (fun f => isBinary f = true -> tokens f = 0) (files r)).
  { eapply scan_records; eauto. intros. now apply record_of_binary. }
  split; [exact HF|].
  rewrite <- sumTokens_text by exact HF.
  apply scan_returned in Hscan as [st [_ [-> [-> _]]]].
  apply sumTokens_perm. symmetry. apply sort_perm.
Qed.

Lemma binary_files_have_no_tokens_witness :
  exists r,
    scan Fragment.test (lit "/p") demo_fs defaultOptions = Returned r /\
    Forall (fun f => isBinary f = true -> tokens f = 0) (files r) /\
    totalTokens r = sumTokens (filter (fun f => negb (isBinary f)) (files r)).
Proof.
  eexists. split; [vm_compute; reflexivity|].
  apply (@binary_files_have_no_tokens Fragment.test (lit "/p") demo_fs
           defaultOptions).
  vm_compute. reflexivity.
Defined.

(* ================================================================== *)
(** * The extension test does not see the case of letters *)
(* ================================================================== *)

Lemma lowerChar_dot (c : ascii) :
  Ascii.eqb (Str.lowerChar c) "."%char = Ascii.eqb c "."%char.
Proof.
  destruct c as [[] [] [] [] [] [] [] []]; reflexivity.
Qed.

Lemma lastDot_lower (s : str) : lastDot (Str.toLowerCase s) = lastDot s.
Proof.
  induction s as [|c s IH]; [reflexivity|].
  unfold Str.toLowerCase in *. cbn [map lastDot].
  rewrite IH, lowerChar_dot. reflexivity.
Qed.

Lemma lower_is_dotdot (s : str) :
  Str.eqb (Str.toLowerCase s) (lit "..") = Str.eqb s (lit "..").
Proof.
  unfold Str.toLowerCase.
  destruct s as [|a [|b [|c s]]]; cbn [map Str.eqb lit list_ascii_of_string];
    rewrite ?lowerChar_dot; reflexivity.
Qed.

Lemma extname_lower (n : str) :
  Str.toLowerCase (path_extname n) = path_extname (Str.toLowerCase n).
Proof.
  unfold path_extname. rewrite lastDot_lower, lower_is_dotdot.
  destruct (lastDot n) as [[|i]|]; try reflexivity.
  destruct (Str.eqb n (lit "..")); [reflexivity|].
  unfold Str.toLowerCase. symmetry. apply skipn_map.
Qed.

Lemma toLowerCase_idem (s : str) :
  Str.toLowerCase (Str.toLowerCase s) = Str.toLowerCase s.
Proof.
  unfold Str.toLowerCase. rewrite map_map. apply map_ext.
  intros c. destruct c as [[] [] [] [] [] [] [] []]; reflexivity.
Qed.

(** C10: every record of the inventory carries the lowercased extension of
    its name and is binary exactly when that extension is in the fixed set;
    so two names that differ only in the case of their letters are
    classified alike, and [IMAGE.PNG] is binary as [image.png] is. *)
Theorem binary_test_ignores_case :
  (forall (E : str -> str -> option bool) rootDir0 fs options r f,
      scan E rootDir0 fs options = Returned r ->
      In f (files r) ->
      ext f = Str.toLowerCase (path_extname (name f)) /\
      isBinary f = BINARY_EXTENSIONS_has (Str.toLowerCase (path_extname (name f)))) /\
  (forall n m : str,
      Str.toLowerCase n = Str.toLowerCase m ->
      BINARY_EXTENSIONS_has (Str.toLowerCase (path_extname n)) =
      BINARY_EXTENSIONS_has (Str.toLowerCase (path_extname m))) /\
  (forall n : str,
      BINARY_EXTENSIONS_has (Str.toLowerCase (path_extname n)) =
      BINARY_EXTENSIONS_has
        (Str.toLowerCase (path_extname (Str.toLowerCase n)))) /\
  BINARY_EXTENSIONS_has (Str.toLowerCase (path_extname (lit "IMAGE.PNG")))
    = true /\
  BINARY_EXTENSIONS_has (Str.toLowerCase (path_extname (lit "image.png")))
    = true.
Proof.
  split; [|split; [|split; [|split]]]; try reflexivity.
  - intros E rootDir0 fs options r f Hscan Hin.
    assert (H : Forall (fun f =>
                ext f = Str.toLowerCase (path_extname (name f)) /\
                isBinary f = BINARY_EXTENSIONS_has
                               (Str.toLowerCase (path_extname (name f))))
              (files r)).
    { eapply scan_records; eauto. intros. unfold record_of.
      destruct (measure _ stat content). simpl. auto. }
    rewrite Forall_forall in H. auto.
  - intros n m H. rewrite !extname_lower, H. reflexivity.
  - intros n. now rewrite !extname_lower, toLowerCase_idem.
Qed.

Lemma binary_test_ignores_case_witness :
  exists r f,
    scan Fragment.test (lit "/p") demo_fs defaultOptions = Returned r /\
    In f (files r) /\
    name f = lit "IMAGE.PNG" /\
    ext f = lit ".png" /\
    isBinary f = true.
Proof.
  eexists. eexists.
  split; [vm_compute; reflexivity|].
  split; [right; right; left; reflexivity|].
  split; [reflexivity|].
  destruct binary_test_ignores_case as [H _].
  destruct (H Fragment.test (lit "/p") demo_fs defaultOptions _ _
              ltac:(vm_compute; reflexivity)
              (or_intror (or_intror (or_introl eq_refl)))) as [H1 H2].
  split; [exact H1 | exact H2].
Defined.

(* ================================================================== *)
(** * Where a record comes from, and its token count *)
(* ================================================================== *)








(* ================================================================== *)
(** * Pruning *)
(* ================================================================== *)

Lemma isIgnored_false (E : str -> str -> option bool) (a : str)
      (pats : list str) :
  isIgnored E a pats = Returned false ->
  Forall (fun rule => matchesPattern E a rule = Returned false) pats.
Proof.
  induction pats as [|p pats IH]; simpl; intros H; [constructor|].
  apply bind_returned in H as [m [Hm H]].
  destruct m; [discriminate|]. constructor; auto.
Qed.

Lemma separator_position (d n a rest : str) :
  ~ In "/"%char n ->
  d ++ lit "/" ++ n = a ++ lit "/" ++ rest ->
  a = d \/ exists l, d = a ++ lit "/" ++ l.
Proof.
  intros Hn H. apply app_eq_app in H as [l [[Hd Hr] | [Ha Hr]]].
  - destruct l as [|c l]; [left; now rewrite app_nil_r in Hd|].
    right. injection Hr as <- _. now exists l.
  - destruct l as [|c l]; [left; now rewrite app_nil_r in Ha|].
    injection Hr as _ Hr. exfalso. apply Hn. rewrite Hr.
    apply in_or_app. right. now left.
Qed.

Section Pruning.

Variable E : str -> str -> option bool.
Variable rootDir0 : str.
Variable pats : list str.

Lemma plain_name_no_separator (e : dirent) :
  plain_names e = true -> ~ In "/"%char (entry_name e).
Proof.
  intros H Hin. apply includesChar_iff in Hin.
  destruct e as [n s c | n [es|err] | n]; simpl in *;
    rewrite Hin in H; discriminate.
Qed.

Lemma reached_entry (dir : str) (e : dirent) :
  reached E rootDir0 pats dir -> plain_names e = true ->
  let rl := path_relative rootDir0 (path_join dir (entry_name e)) in
  path_join dir (entry_name e) = rootDir0 ++ lit "/" ++ rl /\
  kept_above E pats rl.
Proof.
  intros Hdir Hplain. apply plain_name_no_separator in Hplain.
  unfold path_join. destruct Hdir as [-> | [d [-> [Hd Habove]]]]; cbv zeta.
  - rewrite path_relative_below. split; [reflexivity|].
    intros a rest Heq. exfalso. apply Hplain. rewrite Heq.
    apply in_or_app. right. now left.
  - replace ((rootDir0 ++ lit "/" ++ d) ++ lit "/" ++ entry_name e)
      with (rootDir0 ++ lit "/" ++ (d ++ lit "/" ++ entry_name e))
      by (now rewrite <- !app_assoc).
    rewrite path_relative_below. split; [reflexivity|].
    intros a rest Heq.
    destruct (@separator_position d (entry_name e) a rest Hplain Heq)
      as [-> | [l Hl]].
    + exact Hd.
    + eapply Habove; eauto.
Qed.

End Pruning.

(** C4: in the inventory of a scan no record lies below a directory that an
    ignore rule matches: for every way of writing its relative path as
    [a/rest], no rule of the combined set matches [a].  And when a rule
    matches an entry, directory or not, the walk leaves it at once: nothing
    below it is visited, only the counter of ignored entries moves. *)
Theorem no_record_below_ignored_directory
  (E : str -> str -> option bool) (rootDir0 : str) (fs : filesystem)
  (options : scanOptions) (r : scanResult) :
  scan E rootDir0 fs options = Returned r ->
  plain_tree fs = true ->
  (forall f a rest,
      In f (files r) ->
      relPath f = a ++ lit "/" ++ rest ->
      Forall (fun rule => matchesPattern E a rule = Returned false)
             (allPatternsOf fs options)) /\
  (forall dir entry st,
      isIgnored E (path_relative rootDir0 (path_join dir (entry_name entry)))
                (allPatternsOf fs options) = Returned true ->
      visit E rootDir0 (allPatternsOf fs options) dir entry st =
      Returned {| w_files := w_files st;
                  w_ignoredCount := w_ignoredCount st + 1;
                  w_binaryCount := w_binaryCount st |}).
Proof.
  intros Hscan Hplain. split.
  - set (pats := allPatternsOf fs options).
    assert (H : Forall (fun f => kept_above E pats (relPath f)) (files r)).
    { eapply scan_inv
        with (Q := fun dir e => reached E rootDir0 pats dir /\ plain_names e = true);
        [| | |exact Hscan].
      - intros dir n es [Hdir Hpl] Hign. apply Forall_forall. intros e' He'.
        destruct (reached_entry (Dir n (Returned es)) Hdir Hpl) as [Hp Hab].
        split.
        + right. eexists. split; [exact Hp|]. split; assumption.
        + simpl in Hpl. apply andb_true_iff in Hpl as [_ Hpl].
          rewrite forallb_forall in Hpl. auto.
      - intros dir n stat content [Hdir Hpl] Hign.
        destruct (reached_entry (File n stat content) Hdir Hpl) as [Hp Hab].
        unfold record_of. destruct (measure _ stat content). exact Hab.
      - intros es Hr. unfold plain_tree in Hplain. rewrite Hr in Hplain.
        rewrite forallb_forall in Hplain.
        apply Forall_forall. intros e He. split; [now left | auto]. }
    intros f a rest Hin Hrel. rewrite Forall_forall in H.
    apply isIgnored_false. exact (H f Hin a rest Hrel).
  - intros dir entry st Hign.
    destruct entry as [n s c | n l | n]; simpl in *; rewrite Hign; reflexivity.
Qed.

Lemma no_record_below_ignored_directory_witness :
  exists r f,
    scan Fragment.test (lit "/p") demo_fs defaultOptions = Returned r /\
    plain_tree demo_fs = true /\
    In f (files r) /\
    relPath f = lit "src" ++ lit "/" ++ lit "index.js" /\
    Forall (fun rule => matchesPattern Fragment.test (lit "src") rule
                        = Returned false)
           (allPatternsOf demo_fs defaultOptions).
Proof.
  eexists. eexists.
  split; [vm_compute; reflexivity|].
  split; [reflexivity|].
  split; [right; left; reflexivity|].
  split; [reflexivity|].
  exact (proj1 (@no_record_below_ignored_directory Fragment.test (lit "/p")
                  demo_fs defaultOptions _
                  ltac:(vm_compute; reflexivity) eq_refl)
               _ (lit "src") (lit "index.js")
               (or_intror (or_introl eq_refl)) eq_refl).
Defined.

(* ================================================================== *)
(** * What a scan can throw *)
(* ================================================================== *)

Lemma regexp_thrown (E : str -> str -> option bool) (src s : str) (e : exn) :
  regexp E src s = Thrown e -> e = SyntaxError.
Proof. unfold regexp. destruct (E src s); congruence. Qed.

Lemma minimatch_thrown (E : str -> str -> option bool) (s p : str) (e : exn) :
  minimatch E s p = Thrown e -> e = SyntaxError.
Proof.
  unfold minimatch.
  destruct (Str.eqb p (lit "*")); [discriminate|].
  destruct (negb (Str.includesChar p "*"%char)); [discriminate|].
  apply regexp_thrown.
Qed.

Lemma some_m_thrown {A} (f : A -> outcome bool) (l : list A) (e : exn) :
  (forall x e', f x = Thrown e' -> e' = SyntaxError) ->
  some_m f l = Thrown e -> e = SyntaxError.
Proof.
  intros Hf. induction l as [|x l IH]; simpl; [discriminate|].
  intros H. apply bind_thrown in H as [H | [b [_ H]]]; [eauto|].
  destruct b; [discriminate | auto].
Qed.

Lemma matchesPattern_thrown (E : str -> str -> option bool) (a p : str)
      (e : exn) :
  matchesPattern E a p = Thrown e -> e = SyntaxError.
Proof.
  unfold matchesPattern.
  destruct (negb (Str.includesChar (Str.slashes p) "/"%char)).
  - apply some_m_thrown. intros x e'. apply minimatch_thrown.
  - repeat match goal with
           | |- context [if ?c then _ else _] => destruct c
           end; discriminate.
Qed.

Lemma isIgnored_thrown (E : str -> str -> option bool) (a : str)
      (pats : list str) (e : exn) :
  isIgnored E a pats = Thrown e -> e = SyntaxError.
Proof.
  induction pats as [|p pats IH]; simpl; [discriminate|].
  intros H. apply bind_thrown in H as [H | [b [_ H]]].
  - eapply matchesPattern_thrown; eauto.
  - destruct b; [discriminate | auto].
Qed.

Lemma visit_thrown (E : str -> str -> option bool) (rootDir0 : str)
      (pats : list str) (entry : dirent) :
  forall dir st e,
    visit E rootDir0 pats dir entry st = Thrown e -> e = SyntaxError.
Proof.
  induction entry as [n stat content | n es IH | n err | n]
    using dirent_induction;
    intros dir st e Hv; simpl in Hv;
    (apply bind_thrown in Hv as [Hv | [ign [_ Hv]]];
     [eapply isIgnored_thrown; eauto|]);
    destruct ign; try discriminate.
  revert st Hv. induction es as [|x es IHes]; intros st Hv; simpl in Hv;
    [discriminate|].
  inversion IH; subst.
  apply bind_thrown in Hv as [Hv | [st1 [_ Hv]]]; eauto.
Qed.

Lemma walk_thrown (E : str -> str -> option bool) (rootDir0 : str)
      (pats : list str) (dir : str) (listing : outcome (list dirent))
      (st : walkState) (e : exn) :
  walk E rootDir0 pats dir listing st = Thrown e -> e = SyntaxError.
Proof.
  destruct listing as [es|err]; simpl; [|discriminate].
  revert st. induction es as [|x es IH]; intros st H; simpl in H;
    [discriminate|].
  apply bind_thrown in H as [H | [st1 [_ H]]]; eauto using visit_thrown.
Qed.

(** ** With an engine that accepts every source, a scan returns *)

Section TotalEngine.

Variable E : str -> str -> option bool.
Hypothesis E_total : forall src s, E src s <> None.

Lemma isIgnored_returns (a : str) (pats : list str) :
  exists b, isIgnored E a pats = Returned b.
Proof.
  destruct (isIgnored E a pats) as [b|e] eqn:H; [eauto|].
  exfalso. assert (He := isIgnored_thrown _ _ _ H). subst e.
  clear -E_total H. induction pats as [|p pats IH]; simpl in H; [discriminate|].
  apply bind_thrown in H as [H | [b [_ H]]].
  - unfold matchesPattern in H.
    destruct (negb (Str.includesChar (Str.slashes p) "/"%char)).
    + induction (Str.split "/"%char (Str.slashes a)) as [|x l IHl];
        simpl in H; [discriminate|].
      apply bind_thrown in H as [H | [b [_ H]]].
      * unfold minimatch, regexp in H.
        destruct (Str.eqb _ _); [discriminate|].
        destruct (negb _); [discriminate|].
        destruct (E _ x) eqn:HE; [discriminate|].
        now apply E_total in HE.
      * destruct b; [discriminate | auto].
    + repeat match type of H with
             | context [if ?c then _ else _] => destruct c
             end; discriminate.
  - destruct b; [discriminate | auto].
Qed.

Lemma visit_returns (rootDir0 : str) (pats : list str) (entry : dirent) :
  forall dir st, exists st', visit E rootDir0 pats dir entry st = Returned st'.
Proof.
  induction entry as [n stat content | n es IH | n err | n]
    using dirent_induction;
    intros dir st; simpl;
    match goal with
    | |- context [isIgnored E ?a pats] =>
        destruct (isIgnored_returns a pats) as [ign ->]
    end; simpl; destruct ign; eauto.
  revert st. induction es as [|x es IHes]; intros st; simpl; [eauto|].
  inversion IH as [|? ? Hx Hes]; subst.
  destruct (Hx (path_join dir n) st) as [st1 ->]. simpl. auto.
Qed.

Lemma walk_returns (rootDir0 : str) (pats : list str) (dir : str)
      (listing : outcome (list dirent)) (st : walkState) :
  exists st', walk E rootDir0 pats dir listing st = Returned st'.
Proof.
  destruct listing as [es|err]; simpl; [|eauto].
  revert st. induction es as [|x es IH]; intros st; simpl; [eauto|].
  destruct (visit_returns rootDir0 pats x dir st) as [st1 ->]. simpl. auto.
Qed.

End TotalEngine.

(** C1, as the specification states it, fails: a root that does not exist
    is scanned without an error, and the result is the empty inventory. *)
Lemma missing_root_scan_returns :
  root missing_root_fs = Thrown (IOError ENOENT) /\
  scan Fragment.test (lit "/nowhere") missing_root_fs defaultOptions =
  Returned {| files := []; totalTokens := 0; totalBytes := 0;
              ignoredCount := 0; binaryCount := 0;
              rootDir := lit "/nowhere";
              hasClaudeignore := false; hasGitignore := false |} /\
  ~ (exists e, scan Fragment.test (lit "/nowhere") missing_root_fs
                 defaultOptions = Thrown e).
Proof.
  split; [reflexivity|]. split; [reflexivity|]. intros [e H]. discriminate.
Qed.

(** C1, amended: when the listing of the root fails (the root does not
    exist or is not a directory) the scan returns normally, with an empty
    inventory and zero totals and counters.  No failure of the filesystem
    leaves a scan: what a scan can throw is a SyntaxError of the regular
    expression built from a wildcard rule, and with an engine that accepts
    every source a scan returns. *)
Theorem invalid_root_is_not_an_error
  (E : str -> str -> option bool) (rootDir0 : str) (fs : filesystem)
  (options : scanOptions) :
  (forall err, root fs = Thrown err ->
     scan E rootDir0 fs options =
     Returned {| files := []; totalTokens := 0; totalBytes := 0;
                 ignoredCount := 0; binaryCount := 0;
                 rootDir := rootDir0;
                 hasClaudeignore := existsSync (claudeignore fs);
                 hasGitignore := existsSync (gitignore fs) |}) /\
  (forall e, scan E rootDir0 fs options = Thrown e -> e = SyntaxError) /\
  ((forall src s, E src s <> None) ->
   exists r, scan E rootDir0 fs options = Returned r).
Proof.
  split; [|split].
  - intros err Hroot. unfold scan. rewrite Hroot. reflexivity.
  - unfold scan. intros e H.
    apply bind_thrown in H as [H | [st [_ H]]]; [|discriminate].
    eapply walk_thrown; eauto.
  - intros HE. unfold scan.
    destruct (@walk_returns E HE rootDir0 (allPatternsOf fs options) rootDir0
                (root fs) emptyState) as [st ->].
    simpl. eauto.
Qed.

Lemma invalid_root_is_not_an_error_witness :
  (root missing_root_fs = Thrown (IOError ENOENT) /\
   scan Fragment.test (lit "/nowhere") missing_root_fs defaultOptions =
   Returned {| files := []; totalTokens := 0; totalBytes := 0;
               ignoredCount := 0; binaryCount := 0;
               rootDir := lit "/nowhere";
               hasClaudeignore := false; hasGitignore := false |}) /\
  (scan Fragment.test (lit "/p") broken_rule_fs defaultOptions
   = Thrown SyntaxError /\ SyntaxError = SyntaxError) /\
  (exists r, scan (fun _ _ => Some false) (lit "/p") broken_rule_fs
               defaultOptions = Returned r).
Proof.
  split; [|split].
  - split; [reflexivity|].
    exact (proj1 (invalid_root_is_not_an_error Fragment.test (lit "/nowhere")
                    missing_root_fs defaultOptions)
                 (IOError ENOENT) eq_refl).
  - split; [reflexivity|].
    exact (proj1 (proj2 (invalid_root_is_not_an_error Fragment.test (lit "/p")
                           broken_rule_fs defaultOptions))
                 SyntaxError eq_refl).
  - apply (proj2 (proj2 (invalid_root_is_not_an_error (fun _ _ => Some false)
                           (lit "/p") broken_rule_fs defaultOptions))).
    intros src s. discriminate.
Defined.

(* ================================================================== *)
(** * An entry on which a call fails *)
(* ================================================================== *)

(** C2, as the specification states it, fails: a file on which [statSync]
    throws is in the inventory, with size 0 and token count 0; a file whose
    content cannot be read is there too, with its size. *)
Lemma unreadable_file_is_recorded :
  exists r,
    scan Fragment.test (lit "/p") unreadable_fs defaultOptions = Returned r /\
    map (fun f => (relPath f, size f, tokens f)) (files r) =
    [ (lit "gone.txt", 0, 0); (lit "secret.txt", 12, 0) ].
Proof. eexists. split; vm_compute; reflexivity. Qed.

(** C2, amended: a regular file on which [statSync] or the read of the
    content throws is pushed to the inventory all the same, with token
    count 0 and with the size that [statSync] gave (0 when it threw); a
    directory whose listing throws adds nothing; in both cases the loop goes
    on with the entries that follow it. *)
Theorem failed_entry_is_kept_with_no_tokens
  (E : str -> str -> option bool) (rootDir0 : str) (pats : list str)
  (dir : str) (rest : list dirent) (st : walkState) :
  (forall n stat content,
     let rel := path_relative rootDir0 (path_join dir n) in
     isIgnored E rel pats = Returned false ->
     (exists err, stat = Thrown err) \/
     (BINARY_EXTENSIONS_has (Str.toLowerCase (path_extname n)) = false /\
      exists err, content = Thrown err) ->
     exists f,
       relPath f = rel /\ name f = n /\ tokens f = 0 /\
       size f = match stat with Returned sz => sz | Thrown _ => 0 end /\
       for_each (visit E rootDir0 pats dir) (File n stat content :: rest) st =
       for_each (visit E rootDir0 pats dir) rest
         {| w_files := w_files st ++ [f];
            w_ignoredCount := w_ignoredCount st;
            w_binaryCount := if isBinary f then w_binaryCount st + 1
                             else w_binaryCount st |}) /\
  (forall n err,
     isIgnored E (path_relative rootDir0 (path_join dir n)) pats
       = Returned false ->
     for_each (visit E rootDir0 pats dir) (Dir n (Thrown err) :: rest) st =
     for_each (visit E rootDir0 pats dir) rest st).
Proof.
  split.
  - intros n stat content rel Hign Hfail.
    exists (record_of (path_join dir n) rel n stat content).
    repeat split.
    + unfold record_of. now destruct (measure _ stat content).
    + unfold record_of. now destruct (measure _ stat content).
    + unfold record_of.
      destruct Hfail as [[err ->] | [Hb [err ->]]]; [reflexivity|].
      rewrite Hb. now destruct stat.
    + unfold record_of.
      destruct stat as [sz|err]; [|reflexivity].
      destruct (BINARY_EXTENSIONS_has _); [reflexivity|].
      now destruct content.
    + simpl. fold rel. rewrite Hign. reflexivity.
  - intros n err Hign. simpl. rewrite Hign. reflexivity.
Qed.

Lemma failed_entry_is_kept_with_no_tokens_witness :
  (exists f,
     relPath f = lit "secret.txt" /\ name f = lit "secret.txt" /\
     tokens f = 0 /\ size f = 12 /\
     for_each (visit Fragment.test (lit "/p") DEFAULT_IGNORE (lit "/p"))
       [File (lit "secret.txt") (Returned 12) (Thrown (IOError EACCES));
        Other (lit "x")] emptyState =
     for_each (visit Fragment.test (lit "/p") DEFAULT_IGNORE (lit "/p"))
       [Other (lit "x")]
       {| w_files := w_files emptyState ++ [f];
          w_ignoredCount := w_ignoredCount emptyState;
          w_binaryCount := if isBinary f then w_binaryCount emptyState + 1
                           else w_binaryCount emptyState |}) /\
  for_each (visit Fragment.test (lit "/p") DEFAULT_IGNORE (lit "/p"))
    [Dir (lit "locked") (Thrown (IOError EACCES)); Other (lit "x")] emptyState =
  for_each (visit Fragment.test (lit "/p") DEFAULT_IGNORE (lit "/p"))
    [Other (lit "x")] emptyState.
Proof.
  split.
  - exact (proj1 (failed_entry_is_kept_with_no_tokens Fragment.test (lit "/p")
                    DEFAULT_IGNORE (lit "/p") [Other (lit "x")] emptyState)
                 (lit "secret.txt") (Returned 12) (Thrown (IOError EACCES))
                 eq_refl
                 (or_intror (conj eq_refl (ex_intro _ (IOError EACCES) eq_refl)))).
  - exact (proj2 (failed_entry_is_kept_with_no_tokens Fragment.test (lit "/p")
                    DEFAULT_IGNORE (lit "/p") [Other (lit "x")] emptyState)
                 (lit "locked") (IOError EACCES) eq_refl).
Defined.

(* ================================================================== *)
(** * The order of the suggestions *)
(* ================================================================== *)

Section SortSorted.

Variable A : Type.
Variable cmp : A -> A -> Z.
Hypothesis cmp_total : forall a b, cmp a b <= 0 \/ cmp b a <= 0.
Hypothesis cmp_trans : forall a b c, cmp a b <= 0 -> cmp b c <= 0 -> cmp a c <= 0.

Let le (a b : A) : Prop := cmp a b <= 0.

Lemma insert_sorted (x : A) (l : list A) :
  StronglySorted le l -> StronglySorted le (insert cmp x l).
Proof.
  induction 1 as [|y l Hs IH Hy]; simpl.
  - constructor; constructor.
  - destruct (cmp x y <=? 0) eqn:Hxy.
    + apply Z.leb_le in Hxy. constructor.
      * constructor; assumption.
      * constructor; [exact Hxy|].
        eapply Forall_impl; [|exact Hy]. intros z Hz. eapply cmp_trans; eauto.
    + apply Z.leb_gt in Hxy. constructor; [exact IH|].
      eapply Permutation_Forall; [symmetry; apply insert_perm|].
      constructor; [|exact Hy].
      destruct (cmp_total x y); [lia | assumption].
Qed.

Lemma sort_sorted (l : list A) : StronglySorted le (sort cmp l).
Proof.
  induction l as [|x l IH]; simpl; [constructor|].
  now apply insert_sorted.
Qed.

End SortSorted.

Lemma bySuggestion_le (a b : Suggestion.t) :
  bySuggestion a b <= 0 <-> tier_then_savings a b.
Proof.
  unfold bySuggestion, tier_then_savings.
  destruct (_ - _ =? 0) eqn:Hd; simpl.
  - apply Z.eqb_eq in Hd. lia.
  - apply Z.eqb_neq in Hd. lia.
Qed.

(** C6: the suggestions of an analysis are sorted by ascending tier
    (critical 0, high 1, medium 2, low 3) and, within one tier, by
    non-increasing token savings: every suggestion stands in that order to
    every later one. *)
Theorem suggestions_sorted (scanned : scanResult) :
  StronglySorted tier_then_savings (Analysis.suggestions (analyze scanned)) /\
  map priorityOrder [critical; high; medium; low] = [0; 1; 2; 3].
Proof.
  split; [|reflexivity].
  unfold analyze. cbn [Analysis.suggestions].
  eapply StronglySorted_ind
    with (P := fun l => StronglySorted tier_then_savings l);
    [constructor | | apply (@sort_sorted _ bySuggestion)].
  - intros a l _ IH Ha. constructor; [exact IH|].
    eapply Forall_impl; [|exact Ha]. intros b. apply bySuggestion_le.
  - intros a b. rewrite !bySuggestion_le. unfold tier_then_savings. lia.
  - intros a b c. rewrite !bySuggestion_le. unfold tier_then_savings. lia.
Qed.

(* ================================================================== *)
(** * One rule per file *)
(* ================================================================== *)

(** ** The map *)

Lemma get_set_same {V} (k : str) (v : V) (m : Map.t V) :
  Map.get k (Map.set k v m) = Some v.
Proof.
  induction m as [|[k' v'] m IH]; simpl.
  - now rewrite eqb_refl.
  - destruct (Str.eqb k' k) eqn:Hk; simpl.
    + now rewrite eqb_refl.
    + now rewrite Hk.
Qed.

Lemma get_set_other {V} (k k' : str) (v : V) (m : Map.t V) :
  k <> k' -> Map.get k' (Map.set k v m) = Map.get k' m.
Proof.
  intros Hne. apply eqb_neq in Hne.
  induction m as [|[k0 v0] m IH]; simpl.
  - now rewrite Hne.
  - destruct (Str.eqb k0 k) eqn:Hk; simpl.
    + apply eqb_eq in Hk. subst k0. now rewrite Hne.
    + now rewrite IH.
Qed.

Lemma get_in_keys {V} (k : str) (m : Map.t V) :
  In k (map fst m) -> Map.get k m <> None.
Proof.
  induction m as [|[k' v'] m IH]; simpl; [tauto|].
  intros [->|H]; [now rewrite eqb_refl|].
  destruct (Str.eqb k' k); [discriminate | auto].
Qed.

Lemma set_keys {V} (k : str) (v : V) (m : Map.t V) :
  map fst (Map.set k v m) =
  match Map.get k m with
  | Some _ => map fst m
  | None => map fst m ++ [k]
  end.
Proof.
  induction m as [|[k' v'] m IH]; simpl; [reflexivity|].
  destruct (Str.eqb k' k) eqn:Hk; simpl.
  - apply eqb_eq in Hk. now subst.
  - rewrite IH. now destruct (Map.get k m).
Qed.

Lemma set_total {V} (x : V -> Z) (k : str) (v : V) (m : Map.t V) :
  total x (Map.values (Map.set k v m)) =
  total x (Map.values m) + x v
  - match Map.get k m with Some s => x s | None => 0 end.
Proof.
  unfold Map.values, total.
  induction m as [|[k' v'] m IH]; simpl; [lia|].
  destruct (Str.eqb k' k); simpl; lia.
Qed.

Lemma set_NoDup {V} (k : str) (v : V) (m : Map.t V) :
  NoDup (map fst m) -> NoDup (map fst (Map.set k v m)).
Proof.
  intros H. rewrite set_keys. destruct (Map.get k m) eqn:Hg; [exact H|].
  apply NoDup_app; [exact H | repeat constructor; intros [] |].
  intros a Ha [<-|[]]. now apply get_in_keys in Ha.
Qed.

(** ** Totals *)

Lemma total_app {A} (x : A -> Z) (l l' : list A) :
  total x (l ++ l') = total x l + total x l'.
Proof. unfold total. induction l as [|a l IH]; simpl; lia. Qed.

Lemma total_perm {A} (x : A -> Z) (l l' : list A) :
  Permutation l l' -> total x l = total x l'.
Proof. unfold total. induction 1; simpl; lia. Qed.

Lemma fold_left_total {A} (x : A -> Z) (l : list A) (z : Z) :
  fold_left (fun sum a => sum + x a) l z = z + total x l.
Proof.
  unfold total. revert z. induction l as [|a l IH]; intros z; simpl; [lia|].
  rewrite IH. lia.
Qed.

Lemma sumTokens_total (l : list FileRecord) : sumTokens l = total tokens l.
Proof. unfold sumTokens. rewrite fold_left_total. lia. Qed.

(** ** One step of the classification *)

Lemma match_rules_find (f : FileRecord) (rules : list BP.t)
      (st : analyzeState) :
  match_rules f rules st =
  match find (fun bp => Regex.test (BP.pattern bp) (relPath f)) rules with
  | Some bp => (record_match f bp st, true)
  | None => (st, false)
  end.
Proof.
  induction rules as [|bp rules IH]; simpl; [reflexivity|].
  now destruct (Regex.test (BP.pattern bp) (relPath f)).
Qed.

Lemma record_match_suggestions (f : FileRecord) (bp : BP.t)
      (st : analyzeState) :
  a_suggestions (record_match f bp st) =
  match Map.get (key_of bp) (a_suggestions st) with
  | Some s => Map.set (key_of bp) (bump f s) (a_suggestions st)
  | None => Map.set (key_of bp) (bump f (fresh f bp))
                    (Map.set (key_of bp) (fresh f bp) (a_suggestions st))
  end.
Proof.
  unfold record_match, Map.has, key_of. cbn [a_suggestions].
  destruct (Map.get _ (a_suggestions st)) as [s|] eqn:Hg; cbn [negb].
  - now rewrite Hg.
  - now rewrite get_set_same.
Qed.

Lemma classify_bloatFiles (st : analyzeState) (f : FileRecord) :
  a_bloatFiles (classify st f) = a_bloatFiles st ++ tag f.
Proof.
  unfold classify, tag, first_rule. rewrite match_rules_find.
  destruct (find _ BLOAT_PATTERNS) as [bp|].
  - reflexivity.
  - rewrite app_nil_r. simpl.
    now destruct (negb (isBinary f) && (LARGE_FILE_THRESHOLD <? size f)).
Qed.

Lemma classify_suggestions (st : analyzeState) (f : FileRecord) :
  a_suggestions (classify st f) =
  match first_rule f with
  | Some bp => a_suggestions (record_match f bp st)
  | None => a_suggestions st
  end.
Proof.
  unfold classify, first_rule. rewrite match_rules_find.
  destruct (find _ BLOAT_PATTERNS) as [bp|].
  - reflexivity.
  - simpl.
    now destruct (negb (isBinary f) && (LARGE_FILE_THRESHOLD <? size f)).
Qed.

Lemma classified_snoc (fs : list FileRecord) (f : FileRecord) :
  classified (fs ++ [f]) = classify (classified fs) f.
Proof. unfold classified. now rewrite fold_left_app. Qed.

Lemma contributors_snoc (k : str) (fs : list FileRecord) (f : FileRecord) :
  contributors k (fs ++ [f]) =
  contributors k fs ++ (if contributes k f then [f] else []).
Proof. unfold contributors. now rewrite filter_app. Qed.

Lemma contributes_key (k : str) (f : FileRecord) (bp : BP.t) :
  first_rule f = Some bp ->
  contributes k f = Str.eqb (key_of bp) k.
Proof. unfold contributes. now intros ->. Qed.

Lemma first_rule_in (f : FileRecord) (bp : BP.t) :
  first_rule f = Some bp ->
  In bp BLOAT_PATTERNS /\ Regex.test (BP.pattern bp) (relPath f) = true.
Proof. apply find_some. Qed.

(** ** The map counts each file under its first rule *)

Lemma counted_step (fs : list FileRecord) (f : FileRecord)
      (st : analyzeState) :
  counted fs (a_suggestions st) ->
  counted (fs ++ [f]) (a_suggestions (classify st f)).
Proof.
  intros [Hnd Hc]. rewrite classify_suggestions.
  destruct (first_rule f) as [bp|] eqn:Hfr.
  - rewrite record_match_suggestions. split.
    + destruct (Map.get (key_of bp) (a_suggestions st));
        repeat apply set_NoDup; exact Hnd.
    + intros k. rewrite contributors_snoc, (@contributes_key k f bp Hfr).
      destruct (Str.eqb (key_of bp) k) eqn:Hk.
      * apply eqb_eq in Hk. subst k.
        specialize (Hc (key_of bp)).
        rewrite length_app, total_app. cbn [List.length total fold_right].
        destruct (Map.get (key_of bp) (a_suggestions st)) as [s|];
          rewrite get_set_same.
        -- destruct Hc as [Hn [Ht Hbp]]. cbn [bump Suggestion.fileCount
             Suggestion.tokenSavings Suggestion.category Suggestion.priority
             Suggestion.reason].
           repeat split; [lia | lia | exact Hbp].
        -- rewrite Hc.
           split; [reflexivity|]. split; [simpl; lia|].
           exists bp. apply first_rule_in in Hfr as [Hin _].
           repeat split. exact Hin.
      * apply eqb_neq in Hk. rewrite app_nil_r.
        specialize (Hc k).
        destruct (Map.get (key_of bp) (a_suggestions st));
          rewrite !get_set_other by exact Hk; exact Hc.
  - split; [exact Hnd|]. intros k. rewrite contributors_snoc.
    unfold contributes. rewrite Hfr, app_nil_r. apply Hc.
Qed.

Lemma classified_counted (fs : list FileRecord) :
  counted fs (a_suggestions (classified fs)).
Proof.
  induction fs as [|f fs IH] using rev_ind.
  - split; [constructor | intros k; reflexivity].
  - rewrite classified_snoc. now apply counted_step.
Qed.

Lemma classified_bloatFiles (fs : list FileRecord) :
  a_bloatFiles (classified fs) = flat_map tag fs.
Proof.
  induction fs as [|f fs IH] using rev_ind; [reflexivity|].
  rewrite classified_snoc, classify_bloatFiles, IH, flat_map_app. simpl.
  now rewrite app_nil_r.
Qed.

(** ** Each matched file is counted once *)

Lemma record_match_totals (f : FileRecord) (bp : BP.t) (st : analyzeState) :
  let m := Map.values (a_suggestions st) in
  let m' := Map.values (a_suggestions (record_match f bp st)) in
  total Suggestion.fileCount m' = total Suggestion.fileCount m + 1 /\
  total Suggestion.tokenSavings m' = total Suggestion.tokenSavings m + tokens f.
Proof.
  cbv zeta. rewrite record_match_suggestions.
  destruct (Map.get (key_of bp) (a_suggestions st)) as [s|] eqn:Hg;
    rewrite !set_total, ?get_set_same, ?Hg; simpl; lia.
Qed.

Lemma classified_totals (fs : list FileRecord) :
  let st := classified fs in
  total Suggestion.fileCount (Map.values (a_suggestions st))
  = Z.of_nat (List.length (a_bloatFiles st)) /\
  total Suggestion.tokenSavings (Map.values (a_suggestions st))
  = total (fun b => tokens (file b)) (a_bloatFiles st).
Proof.
  cbv zeta. induction fs as [|f fs [IHn IHt]] using rev_ind.
  - split; reflexivity.
  - rewrite classified_snoc, classify_bloatFiles, classify_suggestions.
    rewrite length_app, total_app. unfold tag.
    destruct (first_rule f) as [bp|].
    + destruct (record_match_totals f bp (classified fs)) as [Hn Ht].
      rewrite Hn, Ht, IHn, IHt. simpl. split; lia.
    + simpl. split; lia.
Qed.

Lemma distinct_NoDup (l : list str) : distinct l = true -> NoDup l.
Proof.
  induction l as [|x l IH]; simpl; intros H; constructor;
    apply andb_true_iff in H as [Hx Hl]; [|auto].
  intros Hin. apply negb_true_iff in Hx.
  assert (Hex : existsb (Str.eqb x) l = true)
    by (apply existsb_exists; exists x; split; [assumption | apply eqb_refl]).
  congruence.
Qed.

Lemma table_keys_distinct : NoDup (map key_of BLOAT_PATTERNS).
Proof. apply distinct_NoDup. vm_compute. reflexivity. Qed.

Lemma find_first {A} (p : A -> bool) (l : list A) (a : A) :
  find p l = Some a ->
  exists pre post,
    l = pre ++ a :: post /\ p a = true /\ Forall (fun b => p b = false) pre.
Proof.
  induction l as [|x l IH]; simpl; [discriminate|].
  destruct (p x) eqn:Hx.
  - intros [= ->]. exists [], l. repeat split; [assumption | constructor].
  - intros H. destruct (IH H) as [pre [post [-> [Ha Hpre]]]].
    exists (x :: pre), post. repeat split; [assumption | now constructor].
Qed.

(** C5: the classifier tags a file with the category of the first rule of
    the table, in its declared order, that matches its relative path, and
    with no other: [bloatFiles] holds one entry for a file that some rule
    matches and none for the others.  The suggestion kept for a rule counts
    exactly the files whose first matching rule it is, a file contributes
    under one key at most, and the table's keys tell its rules apart; so the
    file counts of the suggestions add up to the number of tagged files and
    their token savings to the bloat total. *)
Theorem first_matching_rule_only (scanned : scanResult) :
  let a := analyze scanned in
  let m := a_suggestions (classified (files scanned)) in
  Analysis.bloatFiles a = flat_map tag (files scanned) /\
  (forall f bp,
      first_rule f = Some bp ->
      exists pre post,
        BLOAT_PATTERNS = pre ++ bp :: post /\
        Regex.test (BP.pattern bp) (relPath f) = true /\
        Forall (fun q => Regex.test (BP.pattern q) (relPath f) = false) pre) /\
  NoDup (map key_of BLOAT_PATTERNS) /\
  Permutation (Analysis.suggestions a) (Map.values m) /\
  NoDup (map fst m) /\
  (forall k s,
      Map.get k m = Some s ->
      Suggestion.fileCount s
      = Z.of_nat (List.length (contributors k (files scanned))) /\
      Suggestion.tokenSavings s = total tokens (contributors k (files scanned)) /\
      exists bp,
        In bp BLOAT_PATTERNS /\ key_of bp = k /\
        Suggestion.category s = BP.category bp /\
        Suggestion.priority s = BP.priority bp /\
        Suggestion.reason s = BP.reason bp) /\
  (forall f k k',
      contributes k f = true -> contributes k' f = true -> k = k') /\
  total Suggestion.fileCount (Analysis.suggestions a)
  = Z.of_nat (List.length (Analysis.bloatFiles a)) /\
  total Suggestion.tokenSavings (Analysis.suggestions a)
  = Analysis.bloatTokens a.
Proof.
  intros a m.
  assert (Hperm : Permutation (Analysis.suggestions a) (Map.values m))
    by apply sort_perm.
  destruct (classified_counted (files scanned)) as [Hnd Hc].
  destruct (classified_totals (files scanned)) as [Hn Ht]. cbv zeta in Hn, Ht.
  repeat match goal with |- _ /\ _ => split end.
  - apply classified_bloatFiles.
  - intros f bp H. now apply find_first in H.
  - apply table_keys_distinct.
  - exact Hperm.
  - exact Hnd.
  - intros k s Hg. specialize (Hc k). fold m in Hc. now rewrite Hg in Hc.
  - unfold contributes. intros f k k'.
    destruct (first_rule f); [|discriminate].
    intros H1 H2. apply eqb_eq in H1, H2. congruence.
  - rewrite (total_perm _ Hperm). exact Hn.
  - rewrite (total_perm _ Hperm). unfold a, analyze.
    cbn [Analysis.bloatTokens]. rewrite fold_left_total.
    unfold m. rewrite Ht. lia.
Qed.

Lemma first_matching_rule_only_witness :
  let m := a_suggestions (classified (files demo_inventory)) in
  let k : str := lit "/^node_modules(\/|$)/" in
  exists s,
    Map.get k m = Some s /\
    Suggestion.fileCount s = 2 /\
    Suggestion.fileCount s
    = Z.of_nat (List.length (contributors k (files demo_inventory))) /\
    Suggestion.tokenSavings s
    = total tokens (contributors k (files demo_inventory)).
Proof.
  eexists. split; [vm_compute; reflexivity|]. split; [reflexivity|].
  destruct (first_matching_rule_only demo_inventory)
    as (_ & _ & _ & _ & _ & H & _).
  destruct (H (lit "/^node_modules(\/|$)/") _ ltac:(vm_compute; reflexivity))
    as (Hn & Ht & _).
  split; [exact Hn | exact Ht].
Defined.

(* ================================================================== *)
(** * Conservation of the token totals *)
(* ================================================================== *)

Lemma tagged_total (l : list FileRecord) :
  total (fun b => tokens (file b)) (flat_map tag l)
  = total tokens (filter (fun f => negb (unmatched f)) l).
Proof.
  induction l as [|f l IH]; [reflexivity|].
  cbn [flat_map filter]. rewrite total_app, IH.
  unfold tag, unmatched. destruct (first_rule f); simpl; lia.
Qed.

Lemma total_partition {A} (x : A -> Z) (p : A -> bool) (l : list A) :
  total x l = total x (filter (fun a => negb (p a)) l) + total x (filter p l).
Proof.
  induction l as [|a l IH]; [reflexivity|].
  cbn [filter]. destruct (p a); simpl in *; lia.
Qed.

(** C8: in every analysis the grand total is the bloat total plus the clean
    total, in the integers.  The grand total is the one of the scan, the
    bloat total is the total over the files that a rule matches, and for the
    result of a scan the clean total is the total over the other files. *)
Theorem totals_are_conserved (scanned : scanResult) :
  let a := analyze scanned in
  Analysis.totalTokens a = Analysis.bloatTokens a + Analysis.cleanTokens a /\
  Analysis.totalTokens a = totalTokens scanned /\
  Analysis.bloatTokens a
  = total tokens (filter (fun f => negb (unmatched f)) (files scanned)) /\
  (forall (E : str -> str -> option bool) rootDir0 fs options,
      scan E rootDir0 fs options = Returned scanned ->
      Analysis.cleanTokens a = total tokens (filter unmatched (files scanned))).
Proof.
  intros a.
  assert (Hb : Analysis.bloatTokens a
               = total tokens (filter (fun f => negb (unmatched f))
                                      (files scanned))).
  { unfold a, analyze. cbn [Analysis.bloatTokens].
    rewrite fold_left_total, classified_bloatFiles, tagged_total. lia. }
  split; [unfold a, analyze; simpl; lia|].
  split; [reflexivity|]. split; [exact Hb|].
  intros E rootDir0 fs options Hscan.
  assert (Ht : totalTokens scanned = total tokens (files scanned)).
  { apply scan_returned in Hscan as (st & _ & -> & -> & _).
    rewrite sumTokens_total. apply total_perm. symmetry. apply sort_perm. }
  change (Analysis.cleanTokens a)
    with (totalTokens scanned - Analysis.bloatTokens a).
  rewrite Ht, Hb, (total_partition tokens unmatched (files scanned)). lia.
Qed.

Lemma totals_are_conserved_witness :
  exists r,
    scan Fragment.test (lit "/p") demo_fs defaultOptions = Returned r /\
    Analysis.cleanTokens (analyze r) = total tokens (filter unmatched (files r)) /\
    Analysis.cleanTokens (analyze r) = 10 /\
    Analysis.bloatTokens (analyze r) = 125 /\
    Analysis.totalTokens (analyze r) = 135.
Proof.
  eexists. split; [vm_compute; reflexivity|].
  split; [|repeat split].
  match goal with
  | |- Analysis.cleanTokens (analyze ?r) = _ =>
      destruct (totals_are_conserved r) as (_ & _ & _ & H)
  end.
  exact (H Fragment.test (lit "/p") demo_fs defaultOptions
           ltac:(vm_compute; reflexivity)).
Defined.

(* ================================================================== *)
(** * The inventory of a scan *)
(* ================================================================== *)

Lemma byTokensDesc_le (a b : FileRecord) :
  byTokensDesc a b <= 0 <-> tokens b <= tokens a.
Proof. unfold byTokensDesc. lia. Qed.

(** The inventory a scan returns is sorted by non-increasing token count:
    every record has at least the tokens of every later one. *)
Theorem inventory_sorted_by_tokens
  (E : str -> str -> option bool) (rootDir0 : str) (fs : filesystem)
  (options : scanOptions) (r : scanResult) :
  scan E rootDir0 fs options = Returned r ->
  StronglySorted (fun a b => tokens b <= tokens a) (files r).
Proof.
  intros Hscan. apply scan_returned in Hscan as (st & _ & -> & _).
  assert (H : StronglySorted (fun a b => byTokensDesc a b <= 0)
                (sort byTokensDesc (w_files st))).
  { apply sort_sorted; intros; unfold byTokensDesc in *; lia. }
  induction H as [|a l Hs IH Ha]; constructor; [exact IH|].
  eapply Forall_impl; [|exact Ha]. intros b. apply byTokensDesc_le.
Qed.

Lemma inventory_sorted_by_tokens_witness :
  exists r,
    scan Fragment.test (lit "/p") demo_fs defaultOptions = Returned r /\
    map tokens (files r) = [125; 10; 0] /\
    StronglySorted (fun a b => tokens b <= tokens a) (files r).
Proof.
  eexists. split; [vm_compute; reflexivity|]. split; [reflexivity|].
  apply (@inventory_sorted_by_tokens Fragment.test (lit "/p") demo_fs
           defaultOptions).
  vm_compute. reflexivity.
Defined.

(** ** Invariants of the state of the walk *)

Section WalkStateInvariant.

Variable E : str -> str -> option bool.
Variable rootDir0 : str.
Variable pats : list str.
Variable I : walkState -> Prop.

Hypothesis I_ignored : forall st,
  I st ->
  I {| w_files := w_files st;
       w_ignoredCount := w_ignoredCount st + 1;
       w_binaryCount := w_binaryCount st |}.

Hypothesis I_pushed : forall st fullPath rel n stat content,
  I st ->
  let f := record_of fullPath rel n stat content in
  I {| w_files := w_files st ++ [f];
       w_ignoredCount := w_ignoredCount st;
       w_binaryCount := if isBinary f then w_binaryCount st + 1
                        else w_binaryCount st |}.

Lemma visit_state_inv (e : dirent) :
  forall dir st st',
    visit E rootDir0 pats dir e st = Returned st' -> I st -> I st'.
Proof.
  induction e as [n stat content | n es IH | n err | n] using dirent_induction;
    intros dir st st' Hv HI; simpl in Hv;
    apply bind_returned in Hv as [ign [Hign Hv]];
    destruct ign; try (injection Hv as <-; auto; fail).
  clear Hign. revert st HI Hv.
  induction es as [|x es IHes]; intros st HI Hv; simpl in Hv.
  - now injection Hv as <-.
  - apply bind_returned in Hv as [st1 [H1 H2]].
    inversion IH; subst. eauto.
Qed.

Lemma walk_state_inv (dir : str) (listing : outcome (list dirent))
      (st st' : walkState) :
  walk E rootDir0 pats dir listing st = Returned st' -> I st -> I st'.
Proof.
  destruct listing as [es|err]; simpl; [|now intros [= <-]].
  revert st. induction es as [|x es IH]; intros st Hv HI; simpl in Hv.
  - now injection Hv as <-.
  - apply bind_returned in Hv as [st1 [H1 H2]].
    eapply IH; eauto. eapply visit_state_inv; eauto.
Qed.

End WalkStateInvariant.

Lemma total_indicator {A} (p : A -> bool) (l : list A) :
  total (fun a => if p a then 1 else 0) l = Z.of_nat (List.length (filter p l)).
Proof.
  unfold total. induction l as [|a l IH]; [reflexivity|].
  cbn [fold_right filter]. destruct (p a); cbn [List.length]; lia.
Qed.

(** The binary counter of a scan is the number of binary records of its
    inventory, and so at most the number of records. *)
Theorem binaryCount_counts_binary_records
  (E : str -> str -> option bool) (rootDir0 : str) (fs : filesystem)
  (options : scanOptions) (r : scanResult) :
  scan E rootDir0 fs options = Returned r ->
  binaryCount r = Z.of_nat (List.length (filter isBinary (files r))) /\
  0 <= binaryCount r <= Z.of_nat (List.length (files r)).
Proof.
  intros Hscan. apply scan_returned in Hscan as (st & Hw & -> & _ & _ & _ & ->).
  assert (H : w_binaryCount st
              = total (fun f => if isBinary f then 1 else 0) (w_files st)).
  { eapply walk_state_inv
      with (I := fun s => w_binaryCount s
                          = total (fun f => if isBinary f then 1 else 0)
                                  (w_files s));
      [| |exact Hw|reflexivity].
    - intros s Hs. exact Hs.
    - intros s fullPath rel n stat content Hs f. cbn [w_binaryCount w_files].
      rewrite total_app, <- Hs. cbn. destruct (isBinary f); lia. }
  rewrite H, (total_perm _ (Permutation_sym (sort_perm byTokensDesc (w_files st)))).
  rewrite total_indicator. split; [reflexivity|].
  split; [lia|]. apply inj_le. apply filter_length_le.
Qed.

Lemma binaryCount_counts_binary_records_witness :
  exists r,
    scan Fragment.test (lit "/p") demo_fs defaultOptions = Returned r /\
    binaryCount r = 1 /\
    binaryCount r = Z.of_nat (List.length (filter isBinary (files r))) /\
    0 <= binaryCount r <= Z.of_nat (List.length (files r)).
Proof.
  eexists. split; [vm_compute; reflexivity|]. split; [reflexivity|].
  apply (@binaryCount_counts_binary_records Fragment.test (lit "/p") demo_fs
           defaultOptions).
  vm_compute. reflexivity.
Defined.

Lemma estimateTokens_nonneg (n : Z) : 0 <= n -> 0 <= estimateTokens n.
Proof. intros H. rewrite estimateTokens_div. apply Z.div_pos; lia. Qed.

Lemma record_of_tokens_nonneg (fullPath rel n : str) (stat : outcome Z)
      (content : outcome str) :
  0 <= tokens (record_of fullPath rel n stat content).
Proof.
  unfold record_of.
  destruct (BINARY_EXTENSIONS_has _); destruct stat; destruct content;
    simpl; try lia.
  apply estimateTokens_nonneg. lia.
Qed.

Lemma total_nonneg {A} (x : A -> Z) (l : list A) :
  Forall (fun a => 0 <= x a) l -> 0 <= total x l.
Proof. unfold total. induction 1; simpl; lia. Qed.

Lemma filter_Forall {A} (P : A -> Prop) (p : A -> bool) (l : list A) :
  Forall P l -> Forall P (filter p l).
Proof.
  rewrite !Forall_forall. intros H a Ha. apply filter_In in Ha. now apply H.
Qed.

Lemma analyze_bloatTokens (scanned : scanResult) :
  Analysis.bloatTokens (analyze scanned)
  = total tokens (filter (fun f => negb (unmatched f)) (files scanned)).
Proof.
  unfold analyze. cbn [Analysis.bloatTokens].
  rewrite fold_left_total, classified_bloatFiles, tagged_total. lia.
Qed.

Lemma scan_totalTokens (E : str -> str -> option bool) (rootDir0 : str)
      (fs : filesystem) (options : scanOptions) (r : scanResult) :
  scan E rootDir0 fs options = Returned r ->
  totalTokens r = total tokens (files r).
Proof.
  intros Hscan. apply scan_returned in Hscan as (st & _ & -> & -> & _).
  rewrite sumTokens_total. apply total_perm. symmetry. apply sort_perm.
Qed.

(** The token counts of a scan are never negative, and in the analysis of a
    scan the bloat total and the clean total both lie between 0 and the
    total of the scan. *)
Theorem token_totals_are_bounded
  (E : str -> str -> option bool) (rootDir0 : str) (fs : filesystem)
  (options : scanOptions) (r : scanResult) :
  scan E rootDir0 fs options = Returned r ->
  Forall (fun f => 0 <= tokens f) (files r) /\
  0 <= Analysis.bloatTokens (analyze r) <= totalTokens r /\
  0 <= Analysis.cleanTokens (analyze r) <= totalTokens r.
Proof.
  intros Hscan.
  assert (HF : Forall (fun f => 0 <= tokens f) (files r)).
  { eapply scan_records; eauto. intros. apply record_of_tokens_nonneg. }
  split; [exact HF|].
  assert (Hb := analyze_bloatTokens r).
  assert (Ht := scan_totalTokens _ _ _ _ Hscan).
  assert (Hp := total_partition tokens unmatched (files r)).
  assert (H1 : 0 <= total tokens
                     (filter (fun f => negb (unmatched f)) (files r)))
    by (apply total_nonneg, filter_Forall, HF).
  assert (H2 : 0 <= total tokens (filter unmatched (files r)))
    by (apply total_nonneg, filter_Forall, HF).
  change (Analysis.cleanTokens (analyze r))
    with (totalTokens r - Analysis.bloatTokens (analyze r)).
  lia.
Qed.

Lemma token_totals_are_bounded_witness :
  exists r,
    scan Fragment.test (lit "/p") demo_fs defaultOptions = Returned r /\
    Forall (fun f => 0 <= tokens f) (files r) /\
    0 <= Analysis.bloatTokens (analyze r) <= totalTokens r /\
    0 <= Analysis.cleanTokens (analyze r) <= totalTokens r.
Proof.
  eexists. split; [vm_compute; reflexivity|].
  apply (@token_totals_are_bounded Fragment.test (lit "/p") demo_fs
           defaultOptions).
  vm_compute. reflexivity.
Defined.

(* ================================================================== *)
(** * Rules without a separator *)
(* ================================================================== *)

Lemma some_m_pure {A} (g : A -> bool) (l : list A) :
  some_m (fun x => Returned (g x)) l = Returned (existsb g l).
Proof.
  induction l as [|x l IH]; simpl; [reflexivity|].
  destruct (g x); [reflexivity | exact IH].
Qed.

Lemma some_m_ext {A} (f g : A -> outcome bool) (l : list A) :
  (forall x, f x = g x) -> some_m f l = some_m g l.
Proof.
  intros H. induction l as [|x l IH]; simpl; [reflexivity|].
  now rewrite H, IH.
Qed.

Lemma minimatch_literal (E : str -> str -> option bool) (s p : str) :
  Str.includesChar p "*"%char = false ->
  minimatch E s p = Returned (Str.eqb s p).
Proof.
  intros Hstar. unfold minimatch.
  destruct (Str.eqb p (lit "*")) eqn:Hp.
  - apply eqb_eq in Hp. subst p. discriminate.
  - now rewrite Hstar.
Qed.

Lemma slashes_fixed (rule : str) :
  Str.includesChar (Str.slashes rule) "/"%char = false ->
  Str.slashes rule = rule.
Proof.
  intros Hslash.
  unfold Str.slashes. rewrite <- (map_id rule) at 2. apply map_ext_in.
  intros c Hc. destruct (Ascii.eqb c "\"%char) eqn:Hb; [|reflexivity].
  apply Ascii.eqb_eq in Hb. subst c. exfalso.
  assert (Hin : In "/"%char (Str.slashes rule)).
  { unfold Str.slashes. apply in_map_iff. exists "\"%char. now split. }
  apply includesChar_iff in Hin. congruence.
Qed.

Lemma matchesPattern_literal (E : str -> str -> option bool)
      (cand rule : str) :
  Str.includesChar (Str.slashes rule) "/"%char = false ->
  Str.includesChar rule "*"%char = false ->
  matchesPattern E cand rule =
  Returned (existsb (fun part => Str.eqb part rule)
                    (Str.split "/"%char (Str.slashes cand))).
Proof.
  intros Hslash Hstar.
  unfold matchesPattern. rewrite Hslash. cbn [negb].
  rewrite (slashes_fixed _ Hslash).
  rewrite <- some_m_pure. apply some_m_ext.
  intros part. now apply minimatch_literal.
Qed.

(** A rule without separator and without star never throws, and matches a
    path exactly when one of the segments of the path is the rule. *)
Theorem literal_rule_matches_a_segment
  (E : str -> str -> option bool) (cand rule : str) :
  Str.includesChar (Str.slashes rule) "/"%char = false ->
  Str.includesChar rule "*"%char = false ->
  exists b,
    matchesPattern E cand rule = Returned b /\
    (b = true <-> In rule (Str.split "/"%char (Str.slashes cand))).
Proof.
  intros Hslash Hstar. eexists.
  split; [now apply matchesPattern_literal|].
  rewrite existsb_exists. split.
  - intros [x [Hx He]]. apply eqb_eq in He. now subst.
  - intros H. exists rule. split; [exact H | apply eqb_refl].
Qed.

Lemma literal_rule_matches_a_segment_witness :
  exists b,
    matchesPattern Fragment.test (lit "src/.git/HEAD") (lit ".git")
    = Returned b /\
    (b = true <->
     In (lit ".git") (Str.split "/"%char (Str.slashes (lit "src/.git/HEAD")))).
Proof.
  exact (literal_rule_matches_a_segment Fragment.test (lit "src/.git/HEAD")
           (lit ".git") eq_refl eq_refl).
Defined.

(* ================================================================== *)
(** * What the records of a scan say of their files *)
(* ================================================================== *)

Lemma record_of_fields (fullPath rel n : str) (stat : outcome Z)
      (content : outcome str) :
  let f := record_of fullPath rel n stat content in
  path f = fullPath /\ relPath f = rel /\ name f = n.
Proof. unfold record_of. now destruct (measure _ stat content). Qed.

Lemma scan_records_unignored (E : str -> str -> option bool) (rootDir0 : str)
      (fs : filesystem) (options : scanOptions) (r : scanResult) :
  scan E rootDir0 fs options = Returned r ->
  Forall (fun f => isIgnored E (relPath f) (allPatternsOf fs options)
                   = Returned false)
         (files r).
Proof.
  intros Hscan.
  eapply scan_inv with (Q := fun _ _ => True); [| | |exact Hscan].
  - intros. apply Forall_forall. auto.
  - intros dir n stat content _ Hign. cbn [entry_name] in *.
    destruct (record_of_fields (path_join dir n)
                (path_relative rootDir0 (path_join dir n)) n stat content)
      as (_ & -> & _).
    exact Hign.
  - intros. apply Forall_forall. auto.
Qed.

(** The built-in rules always apply: no record of a scan has [.git],
    [.DS_Store] or [Thumbs.db] among the segments of its relative path,
    whatever the ignore files say. *)
Theorem default_ignores_always_apply
  (E : str -> str -> option bool) (rootDir0 : str) (fs : filesystem)
  (options : scanOptions) (r : scanResult) (f : FileRecord) (seg : str) :
  scan E rootDir0 fs options = Returned r ->
  In f (files r) ->
  In seg (Str.split "/"%char (Str.slashes (relPath f))) ->
  ~ In seg DEFAULT_IGNORE.
Proof.
  intros Hscan Hf Hseg Hdef.
  assert (H := scan_records_unignored _ _ _ _ Hscan).
  rewrite Forall_forall in H. specialize (H f Hf).
  apply isIgnored_false in H. rewrite Forall_forall in H.
  assert (Hrule : In seg (allPatternsOf fs options))
    by (unfold allPatternsOf; apply in_or_app; now left).
  specialize (H seg Hrule).
  assert (Hlit : matchesPattern E (relPath f) seg =
                 Returned (existsb (fun part => Str.eqb part seg)
                             (Str.split "/"%char (Str.slashes (relPath f))))).
  { apply matchesPattern_literal;
      destruct Hdef as [<-|[<-|[<-|[]]]]; reflexivity. }
  rewrite Hlit in H. injection H as H.
  assert (Ht : existsb (fun part => Str.eqb part seg)
                 (Str.split "/"%char (Str.slashes (relPath f))) = true).
  { apply existsb_exists. exists seg. split; [exact Hseg | apply eqb_refl]. }
  congruence.
Qed.

Lemma default_ignores_always_apply_witness :
  exists r f,
    scan Fragment.test (lit "/p") demo_fs defaultOptions = Returned r /\
    In f (files r) /\
    In (lit "src") (Str.split "/"%char (Str.slashes (relPath f))) /\
    ~ In (lit "src") DEFAULT_IGNORE.
Proof.
  eexists. eexists.
  split; [vm_compute; reflexivity|].
  split; [right; left; reflexivity|].
  split; [left; reflexivity|].
  exact (@default_ignores_always_apply Fragment.test (lit "/p") demo_fs
           defaultOptions _ _ (lit "src")
           ltac:(vm_compute; reflexivity)
           (or_intror (or_introl eq_refl)) (or_introl eq_refl)).
Defined.

(** For a root as [path.resolve] returns it (absolute, normalized, not the
    filesystem root) and entry names as [readdirSync] gives them, where
    [path.join] is a concatenation: in every record of a scan the full path
    is the root, a separator and the relative path, and the relative path
    ends with the name of the file: it is the name, or a directory path, a
    separator and the name. *)
Theorem record_paths_are_consistent
  (E : str -> str -> option bool) (rootDir0 : str) (fs : filesystem)
  (options : scanOptions) (r : scanResult) (f : FileRecord) :
  resolved_root rootDir0 = true ->
  proper_tree fs = true ->
  scan E rootDir0 fs options = Returned r ->
  In f (files r) ->
  path f = rootDir0 ++ lit "/" ++ relPath f /\
  (relPath f = name f \/ exists d, relPath f = d ++ lit "/" ++ name f).
Proof.
  intros _ _ Hscan Hf.
  assert (H : Forall (fun f =>
                path f = rootDir0 ++ lit "/" ++ relPath f /\
                (relPath f = name f \/
                 exists d, relPath f = d ++ lit "/" ++ name f)) (files r)).
  { eapply scan_inv
      with (Q := fun dir _ =>
                   dir = rootDir0 \/ exists d, dir = rootDir0 ++ lit "/" ++ d);
      [| | |exact Hscan].
    - intros dir n es Hdir _. apply Forall_forall. intros e' _. right.
      destruct Hdir as [-> | [d ->]].
      + now exists n.
      + exists (d ++ lit "/" ++ n). unfold path_join.
        now rewrite <- !app_assoc.
    - intros dir n stat content Hdir _. cbn [entry_name] in *.
      destruct (record_of_fields (path_join dir n)
                  (path_relative rootDir0 (path_join dir n)) n stat content)
        as (-> & -> & ->).
      unfold path_join. destruct Hdir as [-> | [d ->]].
      + rewrite path_relative_below. split; [reflexivity | now left].
      + replace ((rootDir0 ++ lit "/" ++ d) ++ lit "/" ++ n)
          with (rootDir0 ++ lit "/" ++ (d ++ lit "/" ++ n))
          by (now rewrite <- !app_assoc).
        rewrite path_relative_below. split; [reflexivity|].
        right. now exists d.
    - intros es _. apply Forall_forall. intros e _. now left. }
  rewrite Forall_forall in H. now apply H.
Qed.

Lemma record_paths_are_consistent_witness :
  exists r f,
    resolved_root (lit "/p") = true /\
    proper_tree demo_fs = true /\
    scan Fragment.test (lit "/p") demo_fs defaultOptions = Returned r /\
    In f (files r) /\
    path f = lit "/p/src/index.js" /\
    path f = lit "/p" ++ lit "/" ++ relPath f /\
    (relPath f = name f \/ exists d, relPath f = d ++ lit "/" ++ name f).
Proof.
  eexists. eexists.
  split; [reflexivity|].
  split; [reflexivity|].
  split; [vm_compute; reflexivity|].
  split; [right; left; reflexivity|].
  split; [reflexivity|].
  exact (@record_paths_are_consistent Fragment.test (lit "/p") demo_fs
           defaultOptions _ _ eq_refl eq_refl
           ltac:(vm_compute; reflexivity)
           (or_intror (or_introl eq_refl))).
Defined.

(* ================================================================== *)
(** * The walk misses no kept file *)
(* ================================================================== *)

Lemma visit_grows (E : str -> str -> option bool) (rootDir0 : str)
      (pats : list str) (dir : str) (e : dirent) (st st' : walkState) :
  visit E rootDir0 pats dir e st = Returned st' ->
  exists l, w_files st' = w_files st ++ l.
Proof.
  intros Hv.
  eapply visit_state_inv
    with (I := fun s => exists l, w_files s = w_files st ++ l);
    [| |exact Hv|].
  - intros s Hs. exact Hs.
  - intros s fullPath rel n stat content [l Hl] f. cbn [w_files].
    exists (l ++ [f]). now rewrite Hl, app_assoc.
  - exists []. now rewrite app_nil_r.
Qed.

Lemma for_each_grows (E : str -> str -> option bool) (rootDir0 : str)
      (pats : list str) (dir : str) (es : list dirent) (st st' : walkState) :
  for_each (visit E rootDir0 pats dir) es st = Returned st' ->
  exists l, w_files st' = w_files st ++ l.
Proof.
  intros Hv.
  eapply walk_state_inv
    with (I := fun s => exists l, w_files s = w_files st ++ l)
         (listing := Returned es);
    [| |exact Hv|].
  - intros s Hs. exact Hs.
  - intros s fullPath rel n stat content [l Hl] f. cbn [w_files].
    exists (l ++ [f]). now rewrite Hl, app_assoc.
  - exists []. now rewrite app_nil_r.
Qed.

Lemma below_path (e0 : dirent) :
  forall d p e, In (p, e) (below d e0) -> exists s, p = d ++ lit "/" ++ s.
Proof.
  induction e0 as [n0 s0 c0 | n0 es0 IH | n0 err | n0] using dirent_induction;
    intros d p e Hin; simpl in Hin;
    try (destruct Hin as [[= <- _]|[]]; eexists; reflexivity).
  destruct Hin as [[= <- _]|Hin]; [eexists; reflexivity|].
  apply in_flat_map in Hin as [x [Hx Hin]].
  rewrite Forall_forall in IH.
  destruct (IH x Hx _ _ _ Hin) as [s ->].
  exists (n0 ++ lit "/" ++ s). unfold path_join. now rewrite <- !app_assoc.
Qed.

Lemma inside_root (rootDir0 dir n : str) :
  dir = rootDir0 \/ (exists d, dir = rootDir0 ++ lit "/" ++ d) ->
  exists rl,
    path_join dir n = rootDir0 ++ lit "/" ++ rl /\
    path_relative rootDir0 (path_join dir n) = rl.
Proof.
  unfold path_join. intros [-> | [d ->]].
  - exists n. split; [reflexivity | apply path_relative_below].
  - exists (d ++ lit "/" ++ n).
    replace ((rootDir0 ++ lit "/" ++ d) ++ lit "/" ++ n)
      with (rootDir0 ++ lit "/" ++ (d ++ lit "/" ++ n))
      by (now rewrite <- !app_assoc).
    split; [reflexivity | apply path_relative_below].
Qed.

Lemma visit_records_kept (E : str -> str -> option bool) (rootDir0 : str)
      (pats : list str) (e0 : dirent) :
  forall dir st st' p n stat content,
    dir = rootDir0 \/ (exists d, dir = rootDir0 ++ lit "/" ++ d) ->
    visit E rootDir0 pats dir e0 st = Returned st' ->
    In (p, File n stat content) (below dir e0) ->
    kept_above E pats (path_relative rootDir0 p) ->
    unignored E pats (path_relative rootDir0 p) ->
    In (record_of p (path_relative rootDir0 p) n stat content) (w_files st').
Proof.
  induction e0 as [n0 s0 c0 | n0 es0 IH | n0 err | n0] using dirent_induction;
    intros dir st st' p n stat content Hdir Hv Hin Habove Hun; simpl in Hin.
  - destruct Hin as [[= <- <- <- <-]|[]].
    simpl in Hv. unfold unignored in Hun. rewrite Hun in Hv.
    injection Hv as <-. cbn [w_files]. apply in_or_app. right. now left.
  - destruct Hin as [[=]|Hin].
    apply in_flat_map in Hin as [x [Hx Hin]].
    assert (Hroot : exists rl,
               path_join dir n0 = rootDir0 ++ lit "/" ++ rl /\
               path_relative rootDir0 (path_join dir n0) = rl)
      by (now apply inside_root).
    destruct Hroot as [rl [Hjoin Hrel]].
    assert (Hs : exists s, p = path_join dir n0 ++ lit "/" ++ s)
      by (eapply below_path; eauto).
    destruct Hs as [s Hp].
    assert (Hkept : isIgnored E rl pats = Returned false).
    { apply (Habove rl s). rewrite Hp, Hjoin.
      replace ((rootDir0 ++ lit "/" ++ rl) ++ lit "/" ++ s)
        with (rootDir0 ++ lit "/" ++ (rl ++ lit "/" ++ s))
        by (now rewrite <- !app_assoc).
      apply path_relative_below. }
    simpl in Hv. rewrite Hrel, Hkept in Hv. simpl in Hv.
    assert (Hdir' : path_join dir n0 = rootDir0 \/
                    exists d, path_join dir n0 = rootDir0 ++ lit "/" ++ d)
      by (right; now exists rl).
    clear Hkept Hrel Hjoin Hp.
    revert st Hv. induction es0 as [|y es IHes]; intros st Hv; [destruct Hx|].
    simpl in Hv. apply bind_returned in Hv as [st1 [H1 H2]].
    inversion IH as [|? ? Hy Hes]; subst.
    destruct Hx as [->|Hx].
    + assert (Hrec : In (record_of p (path_relative rootDir0 p) n stat content)
                        (w_files st1)) by (eapply Hy; eauto).
      apply for_each_grows in H2 as [l ->].
      apply in_or_app. now left.
    + eapply IHes; eauto.
  - destruct Hin as [[=]|[]].
  - destruct Hin as [[=]|[]].
Qed.

(** The walk misses nothing it should keep: a regular file of the tree whose
    relative path no rule matches, and no rule matches any directory above
    it, has its record in the inventory of the scan. *)
Theorem kept_file_is_recorded
  (E : str -> str -> option bool) (rootDir0 : str) (fs : filesystem)
  (options : scanOptions) (r : scanResult)
  (p n : str) (stat : outcome Z) (content : outcome str) :
  let pats := allPatternsOf fs options in
  let rel := path_relative rootDir0 p in
  scan E rootDir0 fs options = Returned r ->
  In (p, File n stat content) (tree rootDir0 (root fs)) ->
  isIgnored E rel pats = Returned false ->
  (forall a rest, rel = a ++ lit "/" ++ rest ->
                  isIgnored E a pats = Returned false) ->
  In (record_of p rel n stat content) (files r).
Proof.
  intros pats rel Hscan Hin Hun Habove.
  apply scan_returned in Hscan as (st & Hw & -> & _).
  eapply Permutation_in; [symmetry; apply sort_perm|].
  unfold walk in Hw. destruct (root fs) as [es|err]; [|destruct Hin].
  simpl in Hin. apply in_flat_map in Hin as [x [Hx Hin]].
  fold pats in Hw. generalize dependent emptyState.
  induction es as [|y es IH]; intros st0 Hw; [destruct Hx|].
  simpl in Hw. apply bind_returned in Hw as [st1 [H1 H2]].
  destruct Hx as [->|Hx].
  - assert (Hrec : In (record_of p rel n stat content) (w_files st1)).
    { eapply visit_records_kept;
        [left; reflexivity | exact H1 | exact Hin | exact Habove | exact Hun]. }
    apply for_each_grows in H2 as [l ->].
    apply in_or_app. now left.
  - eapply IH; eauto.
Qed.

Lemma kept_file_is_recorded_witness :
  exists r,
    scan Fragment.test (lit "/p") demo_fs defaultOptions = Returned r /\
    In (record_of (lit "/p/src/index.js") (lit "src/index.js")
          (lit "index.js") (Returned 40) (Returned (repeat "b"%char 40)))
       (files r).
Proof.
  eexists. split; [vm_compute; reflexivity|].
  apply (@kept_file_is_recorded Fragment.test (lit "/p") demo_fs defaultOptions
           _ (lit "/p/src/index.js") (lit "index.js") (Returned 40)
           (Returned (repeat "b"%char 40))).
  - vm_compute. reflexivity.
  - right. right. right. left. reflexivity.
  - reflexivity.
  - intros a rest Heq.
    change (path_relative (lit "/p") (lit "/p/src/index.js"))
      with (lit "src" ++ lit "/" ++ lit "index.js") in Heq.
    assert (Ha : a = lit "src").
    { destruct (@separator_position (lit "src") (lit "index.js") a rest) as [->|[l Hl]];
        [ intros H; repeat (destruct H as [H|H]; [discriminate|]); exact H
        | exact Heq | reflexivity | ].
      exfalso.
      assert (Hin : In "/"%char (lit "src"))
        by (rewrite Hl; apply in_or_app; right; now left).
      repeat (destruct Hin as [Hin|Hin]; [discriminate|]). exact Hin. }
    subst a. reflexivity.
Defined.

(* ================================================================== *)
(** * The counter of ignored entries *)
(* ================================================================== *)

(** From [st] to [st'] the walk added [k] at most to the ignored entries and
    the records together, and took nothing away. *)
Lemma visit_counts (E : str -> str -> option bool) (rootDir0 : str)
      (pats : list str) (e : dirent) :
  forall dir st st',
    visit E rootDir0 pats dir e st = Returned st' ->
    w_ignoredCount st <= w_ignoredCount st' /\
    (w_ignoredCount st' + Z.of_nat (List.length (w_files st')))
    <= (w_ignoredCount st + Z.of_nat (List.length (w_files st)))
       + Z.of_nat (List.length (below dir e)).
Proof.
  induction e as [n stat content | n es IH | n err | n] using dirent_induction;
    intros dir st st' Hv; simpl in Hv;
    apply bind_returned in Hv as [ign [_ Hv]];
    destruct ign;
    try (injection Hv as <-; cbn [w_ignoredCount w_files below List.length];
         rewrite ?length_app; cbn [List.length]; lia).
  cbn [below List.length].
  assert (H : w_ignoredCount st <= w_ignoredCount st' /\
              (w_ignoredCount st' + Z.of_nat (List.length (w_files st')))
              <= (w_ignoredCount st + Z.of_nat (List.length (w_files st)))
                 + Z.of_nat (List.length
                               (flat_map (below (path_join dir n)) es))).
  { revert st Hv. induction es as [|x es IHes]; intros st Hv; simpl in Hv.
    - injection Hv as <-. simpl. lia.
    - apply bind_returned in Hv as [st1 [H1 H2]].
      inversion IH as [|? ? Hx Hes]; subst.
      apply Hx in H1. apply (IHes Hes) in H2.
      cbn [flat_map]. rewrite length_app. lia. }
  lia.
Qed.

(** The counter of ignored entries is never negative, and no entry of the
    tree is counted twice: the ignored entries and the records together are
    at most the entries of the tree. *)
Theorem ignored_and_recorded_are_bounded
  (E : str -> str -> option bool) (rootDir0 : str) (fs : filesystem)
  (options : scanOptions) (r : scanResult) :
  scan E rootDir0 fs options = Returned r ->
  0 <= ignoredCount r /\
  ignoredCount r + Z.of_nat (List.length (files r))
  <= Z.of_nat (List.length (tree rootDir0 (root fs))).
Proof.
  intros Hscan.
  apply scan_returned in Hscan as (st & Hw & -> & _ & _ & -> & _).
  rewrite (Permutation_length (sort_perm byTokensDesc (w_files st))).
  unfold walk in Hw. destruct (root fs) as [es|err].
  - cbn [tree].
    assert (H : forall st0 st1,
               for_each (visit E rootDir0 (allPatternsOf fs options) rootDir0)
                        es st0 = Returned st1 ->
               w_ignoredCount st0 <= w_ignoredCount st1 /\
               (w_ignoredCount st1 + Z.of_nat (List.length (w_files st1)))
               <= (w_ignoredCount st0 + Z.of_nat (List.length (w_files st0)))
                  + Z.of_nat (List.length (flat_map (below rootDir0) es))).
    { clear Hw. induction es as [|x es IH]; intros st0 st1 Hv; simpl in Hv.
      + injection Hv as <-. simpl. lia.
      + apply bind_returned in Hv as [st2 [H1 H2]].
        apply visit_counts in H1. apply IH in H2.
        cbn [flat_map]. rewrite length_app. lia. }
    apply H in Hw. simpl in Hw. lia.
  - injection Hw as <-. simpl. lia.
Qed.

Lemma ignored_and_recorded_are_bounded_witness :
  exists r,
    scan Fragment.test (lit "/p") demo_fs defaultOptions = Returned r /\
    ignoredCount r = 1 /\
    0 <= ignoredCount r /\
    ignoredCount r + Z.of_nat (List.length (files r))
    <= Z.of_nat (List.length (tree (lit "/p") (root demo_fs))).
Proof.
  eexists. split; [vm_compute; reflexivity|]. split; [reflexivity|].
  apply (@ignored_and_recorded_are_bounded Fragment.test (lit "/p") demo_fs
           defaultOptions).
  vm_compute. reflexivity.
Defined.

(* ================================================================== *)
(** * Rules and the paths below a match *)
(* ================================================================== *)

Lemma slashes_app (a b : str) :
  Str.slashes (a ++ b) = Str.slashes a ++ Str.slashes b.
Proof. unfold Str.slashes. apply map_app. Qed.

Lemma split_app (c : ascii) (a b : str) :
  Str.split c (a ++ c :: b) = Str.split c a ++ Str.split c b.
Proof.
  induction a as [|x a IH]; simpl.
  - now rewrite Ascii.eqb_refl.
  - destruct (Ascii.eqb x c); [now rewrite IH|].
    rewrite IH. destruct (Str.split c a) as [|h t] eqn:Hs; [|reflexivity].
    destruct a; simpl in Hs; [discriminate|].
    destruct (Ascii.eqb a c); [discriminate|].
    destruct (Str.split c a0); discriminate.
Qed.

Lemma some_m_app_true {A} (f : A -> outcome bool) (l l' : list A) :
  some_m f l = Returned true -> some_m f (l ++ l') = Returned true.
Proof.
  induction l as [|x l IH]; simpl; [discriminate|].
  destruct (f x) as [[]|e]; simpl; auto.
Qed.

Lemma startsWith_longer (s p x : str) :
  Str.startsWith s p = true -> Str.startsWith (s ++ x) p = true.
Proof.
  rewrite !startsWith_iff. intros [r ->]. exists (r ++ x).
  now rewrite app_assoc.
Qed.

(** A rule that matches a path matches every path below it, unless the rule
    begins with [**/]: matching is closed downwards, so pruning a matched
    directory loses no file that the rule would have let through. *)
Theorem rule_matches_below_a_match
  (E : str -> str -> option bool) (a rest rule : str) :
  Str.startsWith (Str.slashes rule) (lit "**/") = false ->
  matchesPattern E a rule = Returned true ->
  matchesPattern E (a ++ lit "/" ++ rest) rule = Returned true.
Proof.
  intros Hstar. unfold matchesPattern.
  rewrite !slashes_app. change (Str.slashes (lit "/")) with (lit "/").
  set (p := Str.slashes rule) in *. set (n := Str.slashes a).
  set (t := Str.slashes rest).
  destruct (negb (Str.includesChar p "/"%char)).
  - change (n ++ lit "/" ++ t) with (n ++ "/"%char :: t).
    rewrite split_app. apply some_m_app_true.
  - rewrite Hstar.
    destruct (Str.endsWith p (lit "/*")).
    { intros [= H]. f_equal. now apply startsWith_longer. }
    destruct (Str.endsWith p (lit "/**")).
    { intros [= H]. f_equal. apply orb_true_iff. left.
      apply orb_true_iff in H as [H|H]; [now apply startsWith_longer|].
      apply eqb_eq in H. rewrite H.
      apply startsWith_iff. exists t. now rewrite <- app_assoc. }
    intros [= H]. f_equal. apply orb_true_iff. right.
    apply orb_true_iff in H as [H|H]; [|now apply startsWith_longer].
    apply eqb_eq in H. rewrite H.
    apply startsWith_iff. exists t. now rewrite <- app_assoc.
Qed.

Lemma rule_matches_below_a_match_witness :
  matchesPattern Fragment.test (lit "build/out" ++ lit "/" ++ lit "a.js")
                 (lit "build/**") = Returned true.
Proof.
  exact (@rule_matches_below_a_match Fragment.test (lit "build/out")
           (lit "a.js") (lit "build/**") eq_refl eq_refl).
Defined.

Lemma endsWith_two_stars (p : str) :
  Str.endsWith p (lit "/**") = true -> Str.endsWith p (lit "/*") = false.
Proof.
  intros H. apply endsWith_iff in H as [q ->].
  unfold Str.endsWith. rewrite rev_app_distr. reflexivity.
Qed.

(** Rules that name a subtree.  A rule [prefix/**] matches the prefix
    directory itself and every path below it; a rule with a separator and
    no glob affix matches the path it spells and every path below it.
    Neither throws. *)
Theorem subtree_rules_match_the_subtree
  (E : str -> str -> option bool) (cand rule : str) :
  let p := Str.slashes rule in
  let c := Str.slashes cand in
  Str.startsWith p (lit "**/") = false ->
  (Str.endsWith p (lit "/**") = true ->
   exists b,
     matchesPattern E cand rule = Returned b /\
     (b = true <->
      c = Str.dropLast 3 p \/
      exists rest, c = Str.dropLast 3 p ++ lit "/" ++ rest)) /\
  (Str.includesChar p "/"%char = true ->
   Str.endsWith p (lit "/*") = false ->
   Str.endsWith p (lit "/**") = false ->
   exists b,
     matchesPattern E cand rule = Returned b /\
     (b = true <-> c = p \/ exists rest, c = p ++ lit "/" ++ rest)).
Proof.
  intros p c Hstar. split.
  - intros Hend.
    assert (Hslash : Str.includesChar p "/"%char = true)
      by (apply (endsWith_slash_includes p (lit "**") Hend)).
    eexists. split.
    + unfold matchesPattern. fold p. fold c.
      rewrite Hslash, Hstar, (endsWith_two_stars _ Hend), Hend. reflexivity.
    + rewrite orb_true_iff, eqb_eq, startsWith_iff. split.
      * intros [[r H]|H]; [right; exists r; now rewrite H, <- app_assoc
                           | now left].
      * intros [H|[r H]]; [now right | left; exists r;
                                       now rewrite H, <- app_assoc].
  - intros Hslash H1 H2. eexists. split.
    + unfold matchesPattern. fold p. fold c.
      rewrite Hslash, Hstar, H1, H2. reflexivity.
    + rewrite orb_true_iff, eqb_eq, startsWith_iff. split.
      * intros [H|[r H]]; [now left | right; exists r;
                                      now rewrite H, <- app_assoc].
      * intros [H|[r H]]; [now left | right; exists r;
                                      now rewrite H, <- app_assoc].
Qed.

Lemma subtree_rules_match_the_subtree_witness :
  (exists b,
     matchesPattern Fragment.test (lit "docs/api") (lit "docs/**")
     = Returned b /\
     (b = true <->
      lit "docs/api" = lit "docs" \/
      exists rest, lit "docs/api" = lit "docs" ++ lit "/" ++ rest)) /\
  (exists b,
     matchesPattern Fragment.test (lit "src/gen/a.js") (lit "src/gen")
     = Returned b /\
     (b = true <->
      lit "src/gen/a.js" = lit "src/gen" \/
      exists rest, lit "src/gen/a.js" = lit "src/gen" ++ lit "/" ++ rest)).
Proof.
  split.
  - exact (proj1 (@subtree_rules_match_the_subtree Fragment.test
                    (lit "docs/api") (lit "docs/**") eq_refl) eq_refl).
  - exact (proj2 (@subtree_rules_match_the_subtree Fragment.test
                    (lit "src/gen/a.js") (lit "src/gen") eq_refl)
                 eq_refl eq_refl eq_refl).
Defined.

(* ================================================================== *)
(** * The rule set as a set *)
(* ================================================================== *)

Lemma isIgnored_any (E : str -> str -> option bool) (a : str)
      (pats : list str) :
  (forall rule, In rule pats -> exists b, matchesPattern E a rule = Returned b) ->
  exists b,
    isIgnored E a pats = Returned b /\
    (b = true <->
     exists rule, In rule pats /\ matchesPattern E a rule = Returned true).
Proof.
  induction pats as [|p pats IH]; intros Hret.
  - exists false. split; [reflexivity|].
    split; [discriminate | intros [rule [[] _]]].
  - destruct (Hret p (or_introl eq_refl)) as [bp Hp].
    destruct IH as [b [Hb Hiff]]; [intros rule Hr; apply Hret; now right|].
    simpl. rewrite Hp. simpl. destruct bp.
    + exists true. split; [reflexivity|].
      split; [intros _; exists p; split; [now left | exact Hp] | reflexivity].
    + exists b. split; [exact Hb|]. rewrite Hiff. split.
      * intros [rule [Hr Hm]]. exists rule. split; [now right | exact Hm].
      * intros [rule [[<-|Hr] Hm]]; [congruence|]. now exists rule.
Qed.

(** When no rule of the set throws on a path, the path is ignored exactly
    when some rule matches it, so the order of the rules does not matter:
    two rule sets with the same rules give the same answer. *)
Theorem isIgnored_is_any_rule
  (E : str -> str -> option bool) (a : str) (pats pats' : list str) :
  (forall rule, In rule pats -> exists b, matchesPattern E a rule = Returned b) ->
  (exists b,
     isIgnored E a pats = Returned b /\
     (b = true <->
      exists rule, In rule pats /\ matchesPattern E a rule = Returned true)) /\
  ((forall rule, In rule pats <-> In rule pats') ->
   isIgnored E a pats' = isIgnored E a pats).
Proof.
  intros Hret. split; [now apply isIgnored_any|].
  intros Hsame.
  destruct (isIgnored_any E a pats Hret) as [b [Hb Hiff]].
  destruct (isIgnored_any E a pats') as [b' [Hb' Hiff']].
  { intros rule Hr. apply Hret. now apply Hsame. }
  rewrite Hb, Hb'. f_equal.
  destruct b, b'; try reflexivity.
  - destruct (proj1 Hiff eq_refl) as [rule [Hr Hm]].
    apply Hiff'. exists rule. split; [now apply Hsame | exact Hm].
  - destruct (proj1 Hiff' eq_refl) as [rule [Hr Hm]].
    symmetry. apply Hiff. exists rule. split; [now apply Hsame | exact Hm].
Qed.

Lemma isIgnored_is_any_rule_witness :
  (exists b,
     isIgnored Fragment.test (lit "src/.git") DEFAULT_IGNORE = Returned b /\
     (b = true <->
      exists rule, In rule DEFAULT_IGNORE /\
                   matchesPattern Fragment.test (lit "src/.git") rule
                   = Returned true)) /\
  isIgnored Fragment.test (lit "src/.git") (rev DEFAULT_IGNORE)
  = isIgnored Fragment.test (lit "src/.git") DEFAULT_IGNORE.
Proof.
  assert (Hret : forall rule, In rule DEFAULT_IGNORE ->
            exists b, matchesPattern Fragment.test (lit "src/.git") rule
                      = Returned b).
  { intros rule [<-|[<-|[<-|[]]]]; eexists; reflexivity. }
  destruct (@isIgnored_is_any_rule Fragment.test (lit "src/.git")
              DEFAULT_IGNORE (rev DEFAULT_IGNORE) Hret) as [H1 H2].
  split; [exact H1|]. apply H2. intros rule. apply in_rev.
Defined.

(* ================================================================== *)
(** * The rules read from an ignore file *)
(* ================================================================== *)

Lemma trimStart_head (s : str) (c : ascii) (rest : str) :
  Str.trimStart s = c :: rest -> Str.isSpace c = false.
Proof.
  induction s as [|x s IH]; simpl; [discriminate|].
  destruct (Str.isSpace x) eqn:Hx; [exact IH|].
  intros [= <- _]. exact Hx.
Qed.

Lemma trimStart_suffix (s : str) : exists pre, s = pre ++ Str.trimStart s.
Proof.
  induction s as [|x s [pre IH]]; simpl; [now exists []|].
  destruct (Str.isSpace x).
  - exists (x :: pre). simpl. now f_equal.
  - now exists [].
Qed.

Lemma trim_first (s : str) (c : ascii) (rest : str) :
  Str.trim s = c :: rest -> Str.isSpace c = false.
Proof.
  unfold Str.trim. intros H.
  destruct (trimStart_suffix (rev (Str.trimStart s))) as [pre Hpre].
  apply (f_equal (@rev ascii)) in Hpre.
  rewrite rev_involutive, rev_app_distr, H in Hpre.
  simpl in Hpre. eapply trimStart_head. exact Hpre.
Qed.

Lemma trim_last (s : str) (c : ascii) (pre : str) :
  Str.trim s = pre ++ [c] -> Str.isSpace c = false.
Proof.
  unfold Str.trim. intros H.
  apply (f_equal (@rev ascii)) in H.
  rewrite rev_involutive, rev_app_distr in H. simpl in H.
  eapply trimStart_head. exact H.
Qed.

Lemma trim_incl (s : str) (x : ascii) : In x (Str.trim s) -> In x s.
Proof.
  unfold Str.trim. intros H. apply in_rev in H.
  destruct (trimStart_suffix (rev (Str.trimStart s))) as [pre Hpre].
  assert (H1 : In x (rev (Str.trimStart s)))
    by (rewrite Hpre; apply in_or_app; now right).
  apply in_rev in H1.
  destruct (trimStart_suffix s) as [pre' Hpre'].
  rewrite Hpre'. apply in_or_app. now right.
Qed.

Lemma split_no_separator (c : ascii) (s : str) :
  Forall (fun seg => ~ In c seg) (Str.split c s).
Proof.
  induction s as [|x s IH]; simpl.
  - constructor; [intros [] | constructor].
  - destruct (Ascii.eqb x c) eqn:Hx.
    + constructor; [intros [] | exact IH].
    + destruct (Str.split c s) as [|h t].
      * constructor; [|constructor]. intros [->|[]].
        now rewrite Ascii.eqb_refl in Hx.
      * inversion IH; subst. constructor; [|assumption].
        intros [->|Hin]; [now rewrite Ascii.eqb_refl in Hx | auto].
Qed.

(** The rules [parseIgnoreFile] returns are clean: none is empty, none is a
    comment line, none begins or ends with white space, none holds a line
    feed; and there are rules only when the file exists and could be
    read. *)
Theorem parsed_rules_are_clean (f : ignoreFile) (rule : str) :
  In rule (parseIgnoreFile f) ->
  rule <> [] /\
  Str.startsWith rule (lit "#") = false /\
  (forall c rest, rule = c :: rest -> Str.isSpace c = false) /\
  (forall c pre, rule = pre ++ [c] -> Str.isSpace c = false) /\
  ~ In "010"%char rule /\
  exists content, f = Present (Returned content).
Proof.
  destruct f as [|[content|err]]; simpl; try tauto.
  intros H. apply filter_In in H as [Hin Hkeep].
  apply andb_true_iff in Hkeep as [Hne Hcom].
  apply negb_true_iff in Hne, Hcom.
  apply in_map_iff in Hin as [line [<- Hline]].
  repeat split.
  - now apply eqb_neq in Hne.
  - exact Hcom.
  - intros c rest. apply trim_first.
  - intros c pre. apply trim_last.
  - intros Hlf. apply trim_incl in Hlf.
    assert (Hs := split_no_separator "010"%char content).
    rewrite Forall_forall in Hs. exact (Hs line Hline Hlf).
  - now exists content.
Qed.

Lemma parsed_rules_are_clean_witness :
  let f := Present (Returned (lit "  # build output
  dist/
node_modules  

*.log")) in
  parseIgnoreFile f = [lit "dist/"; lit "node_modules"; lit "*.log"] /\
  lit "dist/" <> [] /\
  Str.startsWith (lit "dist/") (lit "#") = false /\
  (forall c rest, lit "dist/" = c :: rest -> Str.isSpace c = false) /\
  (forall c pre, lit "dist/" = pre ++ [c] -> Str.isSpace c = false) /\
  ~ In "010"%char (lit "dist/") /\
  exists content, f = Present (Returned content).
Proof.
  intros f. split; [reflexivity|].
  exact (@parsed_rules_are_clean f (lit "dist/") (or_introl eq_refl)).
Defined.

(* ================================================================== *)
(** * The large files *)
(* ================================================================== *)

(** The test of [analyze] for a large file that no rule matched. *)
Lemma classify_largeFiles (st : analyzeState) (f : FileRecord) :
  a_largeFiles (classify st f) =
  a_largeFiles st ++
  (if unmatched f && negb (isBinary f) && (LARGE_FILE_THRESHOLD <? size f)
   then [f] else []).
Proof.
  unfold classify, unmatched, first_rule. rewrite match_rules_find.
  destruct (find _ BLOAT_PATTERNS) as [bp|]; simpl.
  - now rewrite app_nil_r.
  - destruct (negb (isBinary f) && (LARGE_FILE_THRESHOLD <? size f));
      simpl; [reflexivity | now rewrite app_nil_r].
Qed.

Lemma classified_largeFiles (fs : list FileRecord) :
  a_largeFiles (classified fs) =
  filter (fun f => unmatched f && negb (isBinary f)
                   && (LARGE_FILE_THRESHOLD <? size f)) fs.
Proof.
  induction fs as [|f fs IH] using rev_ind; [reflexivity|].
  rewrite classified_snoc, classify_largeFiles, IH, filter_app. simpl.
  now destruct (unmatched f && negb (isBinary f)
                && (LARGE_FILE_THRESHOLD <? size f)).
Qed.

Lemma StronglySorted_weaken {A} (R R' : A -> A -> Prop) (l : list A) :
  (forall x y, R x y -> R' x y) ->
  StronglySorted R l -> StronglySorted R' l.
Proof.
  intros HR. induction 1 as [|x t Ht IH Hx]; constructor; [exact IH|].
  eapply Forall_impl; [|exact Hx]. intros y. apply HR.
Qed.

Lemma StronglySorted_app_inv {A} (R : A -> A -> Prop) (l l' : list A) :
  StronglySorted R (l ++ l') ->
  StronglySorted R l /\ forall x y, In x l -> In y l' -> R x y.
Proof.
  induction l as [|a l IH]; simpl; intros H.
  - split; [constructor | intros x y []].
  - inversion H as [|? ? Hs Ha]; subst. destruct (IH Hs) as [Hl Hxy].
    split.
    + constructor; [exact Hl|].
      apply Forall_forall. intros x Hx. rewrite Forall_forall in Ha.
      apply Ha. apply in_or_app. now left.
    + intros x y [<-|Hx] Hy; [|auto].
      rewrite Forall_forall in Ha. apply Ha. apply in_or_app. now right.
Qed.

(** [largeFiles] holds the 20 files with the most tokens among the files
    that no rule matches, that are not binary and that exceed 10 KiB, in
    non-increasing order of tokens: at most 20 of them, every one such a
    file of the inventory, the files left out having at most the tokens of
    each file kept, and all of them kept when there are 20 or fewer. *)
Theorem large_files_are_the_top_twenty (scanned : scanResult) :
  let a := analyze scanned in
  let large f := unmatched f && negb (isBinary f)
                 && (LARGE_FILE_THRESHOLD <? size f) in
  (List.length (Analysis.largeFiles a) <= 20)%nat /\
  StronglySorted (fun x y => tokens y <= tokens x) (Analysis.largeFiles a) /\
  exists rest,
    Permutation (Analysis.largeFiles a ++ rest) (filter large (files scanned)) /\
    (forall x y, In x (Analysis.largeFiles a) -> In y rest ->
                 tokens y <= tokens x) /\
    ((List.length (filter large (files scanned)) <= 20)%nat -> rest = []).
Proof.
  intros a large. unfold a, analyze. cbn [Analysis.largeFiles].
  rewrite classified_largeFiles. fold large.
  set (l := sort byTokensDesc (filter large (files scanned))).
  assert (Hs : StronglySorted (fun x y => byTokensDesc x y <= 0) l)
    by (apply sort_sorted; intros; unfold byTokensDesc in *; lia).
  rewrite <- (firstn_skipn 20 l) in Hs.
  apply StronglySorted_app_inv in Hs as [Hs Hxy].
  split; [apply firstn_le_length|]. split.
  - eapply StronglySorted_weaken; [|exact Hs].
    intros x y. apply byTokensDesc_le.
  - exists (skipn 20 l). split; [|split].
    + rewrite firstn_skipn. apply sort_perm.
    + intros x y Hx Hy. apply byTokensDesc_le. now apply Hxy.
    + intros Hlen. apply skipn_all2. unfold l.
      now rewrite (Permutation_length (sort_perm _ _)).
Qed.

Lemma large_files_are_the_top_twenty_witness :
  let scanned :=
    {| files := [ {| path := lit "/p/report.txt"; relPath := lit "report.txt";
                     name := lit "report.txt"; ext := lit ".txt";
                     size := 41000; tokens := 10250; isBinary := false |};
                  demo_record "dist/a.js" 7 ];
       totalTokens := 10257; totalBytes := 41028;
       ignoredCount := 0; binaryCount := 0; rootDir := lit "/p";
       hasClaudeignore := false; hasGitignore := false |} in
  map relPath (Analysis.largeFiles (analyze scanned)) = [lit "report.txt"] /\
  exists rest,
    Permutation (Analysis.largeFiles (analyze scanned) ++ rest)
      (filter (fun f => unmatched f && negb (isBinary f)
                        && (LARGE_FILE_THRESHOLD <? size f))
              (files scanned)) /\
    rest = [].
Proof.
  intros scanned. split; [vm_compute; reflexivity|].
  destruct (large_files_are_the_top_twenty scanned)
    as (_ & _ & rest & Hperm & _ & Hall).
  exists rest. split; [exact Hperm|].
  apply Hall. vm_compute. repeat constructor.
Defined.

(* ================================================================== *)
(** * The bloat files *)
(* ================================================================== *)

Lemma tagged_files (l : list FileRecord) :
  map file (flat_map tag l) = filter (fun f => negb (unmatched f)) l.
Proof.
  induction l as [|f l IH]; [reflexivity|].
  cbn [flat_map filter]. rewrite map_app, IH.
  unfold tag, unmatched. now destruct (first_rule f).
Qed.

Lemma tagged_sorted (R : FileRecord -> FileRecord -> Prop)
      (l : list FileRecord) :
  StronglySorted R l ->
  StronglySorted (fun x y => R (file x) (file y)) (flat_map tag l).
Proof.
  induction 1 as [|f l Hs IH Hf]; [constructor|].
  cbn [flat_map]. unfold tag at 1. destruct (first_rule f); [|exact IH].
  simpl. constructor; [exact IH|].
  apply Forall_forall. intros b Hb.
  apply in_flat_map in Hb as [g [Hg Hb]].
  rewrite Forall_forall in Hf. specialize (Hf g Hg).
  unfold tag in Hb. destruct (first_rule g); [|destruct Hb].
  destruct Hb as [<-|[]]. exact Hf.
Qed.

(** [bloatFiles] lists the files that some rule matches, each once and in
    the order of the inventory; for the inventory of a scan that order is
    by non-increasing token count. *)
Theorem bloat_files_follow_the_inventory (scanned : scanResult) :
  let a := analyze scanned in
  map file (Analysis.bloatFiles a)
  = filter (fun f => negb (unmatched f)) (files scanned) /\
  (forall (E : str -> str -> option bool) rootDir0 fs options,
      scan E rootDir0 fs options = Returned scanned ->
      StronglySorted (fun x y => tokens (file y) <= tokens (file x))
                     (Analysis.bloatFiles a)).
Proof.
  intros a. unfold a, analyze. cbn [Analysis.bloatFiles].
  rewrite classified_bloatFiles. split; [apply tagged_files|].
  intros E rootDir0 fs options Hscan.
  apply (@tagged_sorted (fun x y => tokens y <= tokens x)).
  apply scan_returned in Hscan as (st & _ & -> & _).
  assert (H : StronglySorted (fun a b => byTokensDesc a b <= 0)
                (sort byTokensDesc (w_files st)))
    by (apply sort_sorted; intros; unfold byTokensDesc in *; lia).
  eapply StronglySorted_weaken; [|exact H].
  intros x y. apply byTokensDesc_le.
Qed.

Lemma bloat_files_follow_the_inventory_witness :
  exists r,
    scan Fragment.test (lit "/p") demo_fs defaultOptions = Returned r /\
    map (fun b => relPath (file b)) (Analysis.bloatFiles (analyze r))
    = [lit "node_modules/x.js"] /\
    StronglySorted (fun x y => tokens (file y) <= tokens (file x))
                   (Analysis.bloatFiles (analyze r)).
Proof.
  eexists. split; [vm_compute; reflexivity|]. split; [reflexivity|].
  match goal with
  | |- StronglySorted _ (Analysis.bloatFiles (analyze ?r)) =>
      exact (proj2 (bloat_files_follow_the_inventory r)
               Fragment.test (lit "/p") demo_fs defaultOptions
               ltac:(vm_compute; reflexivity))
  end.
Defined.

(* ================================================================== *)
(** * The suggestions *)
(* ================================================================== *)

Lemma set_set {V} (k : str) (v1 v2 : V) (m : Map.t V) :
  Map.set k v2 (Map.set k v1 m) = Map.set k v2 m.
Proof.
  induction m as [|[k' v'] m IH]; simpl.
  - now rewrite eqb_refl.
  - destruct (Str.eqb k' k) eqn:Hk; simpl.
    + now rewrite eqb_refl.
    + now rewrite Hk, IH.
Qed.

Lemma get_in_values {V} (k : str) (v : V) (m : Map.t V) :
  Map.get k m = Some v -> In v (Map.values m).
Proof.
  induction m as [|[k' v'] m IH]; simpl; [discriminate|].
  destruct (Str.eqb k' k); [intros [= ->]; now left | right; auto].
Qed.

Lemma set_values_Forall {V} (P : V -> Prop) (k : str) (v : V) (m : Map.t V) :
  Forall P (Map.values m) -> P v -> Forall P (Map.values (Map.set k v m)).
Proof.
  intros Hm Hv. induction m as [|[k' v'] m IH]; simpl.
  - now constructor.
  - simpl in Hm. inversion Hm; subst.
    destruct (Str.eqb k' k); simpl; constructor; auto.
Qed.

Lemma classified_values (P : Suggestion.t -> Prop) (fs : list FileRecord) :
  (forall f bp, In f fs -> P (bump f (fresh f bp))) ->
  (forall f s, In f fs -> P s -> P (bump f s)) ->
  Forall P (Map.values (a_suggestions (classified fs))).
Proof.
  induction fs as [|f fs IH] using rev_ind; intros Hfresh Hbump.
  - constructor.
  - assert (Hin : In f (fs ++ [f])) by (apply in_or_app; right; now left).
    assert (IH' : Forall P (Map.values (a_suggestions (classified fs)))).
    { apply IH; intros; [apply Hfresh | apply Hbump]; auto;
        apply in_or_app; now left. }
    rewrite classified_snoc, classify_suggestions.
    destruct (first_rule f) as [bp|]; [|exact IH'].
    rewrite record_match_suggestions.
    destruct (Map.get (key_of bp) (a_suggestions (classified fs)))
      as [s|] eqn:Hg.
    + apply set_values_Forall; [exact IH'|].
      apply Hbump; [exact Hin|].
      rewrite Forall_forall in IH'. apply IH'.
      eapply get_in_values; eauto.
    + rewrite set_set. apply set_values_Forall; [exact IH' | now apply Hfresh].
Qed.

Lemma classified_keys (fs : list FileRecord) :
  incl (map fst (a_suggestions (classified fs))) (map key_of BLOAT_PATTERNS).
Proof.
  intros k Hk. destruct (classified_counted fs) as [_ Hc].
  specialize (Hc k). apply get_in_keys in Hk.
  destruct (Map.get k (a_suggestions (classified fs))); [|congruence].
  destruct Hc as (_ & _ & bp & Hbp & <- & _). now apply in_map.
Qed.

(** There is at most one suggestion per rule of the table, 41 at most;
    every suggestion stands for one file at least; and with token counts
    that are not negative no suggestion has negative savings. *)
Theorem suggestions_are_few_and_nonempty (scanned : scanResult) :
  let a := analyze scanned in
  (List.length (Analysis.suggestions a) <= 41)%nat /\
  Forall (fun s => 1 <= Suggestion.fileCount s) (Analysis.suggestions a) /\
  (Forall (fun f => 0 <= tokens f) (files scanned) ->
   Forall (fun s => 0 <= Suggestion.tokenSavings s) (Analysis.suggestions a)).
Proof.
  intros a. unfold a, analyze. cbn [Analysis.suggestions].
  split; [|split].
  - rewrite (Permutation_length (sort_perm _ _)).
    unfold Map.values. rewrite length_map.
    rewrite <- (length_map (@fst str Suggestion.t)).
    change 41%nat with (List.length (map key_of BLOAT_PATTERNS)).
    apply NoDup_incl_length; [|apply classified_keys].
    apply classified_counted.
  - apply sort_Forall.
    apply (@classified_values
             (fun s => 1 <= Suggestion.fileCount s) (files scanned)).
    + intros f bp _. simpl. lia.
    + intros f s _ Hs. simpl. lia.
  - intros Hpos. apply sort_Forall.
    apply (@classified_values
             (fun s => 0 <= Suggestion.tokenSavings s) (files scanned)).
    + intros f bp Hf. rewrite Forall_forall in Hpos.
      specialize (Hpos f Hf). simpl. lia.
    + intros f s Hf Hs. rewrite Forall_forall in Hpos.
      specialize (Hpos f Hf). simpl. lia.
Qed.

Lemma suggestions_are_few_and_nonempty_witness :
  let a := analyze demo_inventory in
  map Suggestion.fileCount (Analysis.suggestions a) = [2; 1; 1] /\
  Forall (fun s => 0 <= Suggestion.tokenSavings s) (Analysis.suggestions a).
Proof.
  intros a. split; [vm_compute; reflexivity|].
  apply (proj2 (proj2 (suggestions_are_few_and_nonempty demo_inventory))).
  repeat constructor; vm_compute; discriminate.
Defined.

(* ================================================================== *)
(** * The pattern a suggestion displays *)
(* ================================================================== *)

Lemma spanWord_word (s : str) :
  forallb isWordChar (fst (spanWord s)) = true.
Proof.
  induction s as [|c s IH]; [reflexivity|].
  simpl. destruct (isWordChar c) eqn:Hc; [|reflexivity].
  destruct (spanWord s) as [w r]. simpl in *. now rewrite Hc.
Qed.

Lemma extMatch_word (s w : str) :
  extMatch s = Some w -> w <> [] /\ forallb isWordChar w = true.
Proof.
  induction s as [|c s IH]; [discriminate|].
  cbn [extMatch].
  destruct (Ascii.eqb c "\"%char); [|exact IH].
  destruct s as [|d s']; [exact IH|].
  destruct (Ascii.eqb d "."%char); [|exact IH].
  assert (Hw := spanWord_word s').
  destruct (spanWord s') as [[|x w'] [|e r]]; try exact IH.
  destruct (Ascii.eqb e "$"%char); [|exact IH].
  intros [= <-]. split; [discriminate | exact Hw].
Qed.

Lemma split_head_no_separator (c : ascii) (s : str) :
  ~ In c (hd [] (Str.split c s)).
Proof.
  assert (H := split_no_separator c s).
  destruct (Str.split c s) as [|h t]; [intros [] | now inversion H].
Qed.

Lemma split_many (c : ascii) (s : str) :
  (1 <? List.length (Str.split c s))%nat = Str.includesChar s c.
Proof.
  unfold Str.includesChar.
  induction s as [|x s IH]; [reflexivity|].
  cbn [Str.split existsb]. rewrite (Ascii.eqb_sym c x).
  destruct (Ascii.eqb x c); simpl.
  - destruct (Str.split c s) eqn:Hs; [|reflexivity].
    destruct s as [|y s]; simpl in Hs; [discriminate|].
    destruct (Ascii.eqb y c); [discriminate|].
    destruct (Str.split c s); discriminate.
  - rewrite <- IH. destruct (Str.split c s) as [|h t]; reflexivity.
Qed.

(** The pattern a suggestion displays has one of two shapes: [*.] and a
    non-empty word, when the source of the rule holds an escaped dot, a word
    and [$]; otherwise the first segment of the path of the file, followed
    by a separator exactly when the path has more than one segment.  In
    neither case does it hold a separator anywhere but at its end. *)
Theorem display_pattern_shape (rel : str) (r : regex) :
  let d := getIgnorePattern rel r in
  let first := hd [] (Str.split "/"%char (Str.slashes rel)) in
  (exists w,
      extMatch (Regex.toString r) = Some w /\
      d = lit "*." ++ w /\ w <> [] /\ forallb isWordChar w = true) \/
  (extMatch (Regex.toString r) = None /\
   ~ In "/"%char first /\
   d = first ++ (if Str.includesChar (Str.slashes rel) "/"%char
                 then lit "/" else [])).
Proof.
  intros d first. unfold d, getIgnorePattern. fold first.
  destruct (extMatch (Regex.toString r)) as [w|] eqn:Hx.
  - left. exists w. destruct (extMatch_word _ Hx) as [Hne Hw].
    repeat split; assumption.
  - right. split; [reflexivity|]. split.
    + apply split_head_no_separator.
    + now rewrite split_many.
Qed.

(** Twelve rules of the table display as an extension, whatever the file
    that was matched: besides [*.pyc] and [*.log], the rules for one lock
    file or one system file display as [*.json], [*.lock], [*.yaml],
    [*.DS_Store] and [*.db].  The other twenty-nine display the first
    segment of the path. *)
Theorem table_rules_displayed_as_extensions (rel : str) :
  map (fun bp => (key_of bp, getIgnorePattern rel (BP.pattern bp)))
      (filter (fun bp => match extMatch (key_of bp) with
                         | Some _ => true
                         | None => false
                         end) BLOAT_PATTERNS)
  = [ (lit "/\.pyc$/", lit "*.pyc");
      (lit "/^package-lock\.json$/", lit "*.json");
      (lit "/^yarn\.lock$/", lit "*.lock");
      (lit "/^pnpm-lock\.yaml$/", lit "*.yaml");
      (lit "/^Cargo\.lock$/", lit "*.lock");
      (lit "/^Gemfile\.lock$/", lit "*.lock");
      (lit "/^composer\.lock$/", lit "*.lock");
      (lit "/^poetry\.lock$/", lit "*.lock");
      (lit "/^uv\.lock$/", lit "*.lock");
      (lit "/\.log$/", lit "*.log");
      (lit "/^\.DS_Store$/", lit "*.DS_Store");
      (lit "/^Thumbs\.db$/", lit "*.db") ] /\
  Forall (fun bp =>
            extMatch (key_of bp) = None ->
            getIgnorePattern rel (BP.pattern bp)
            = hd [] (Str.split "/"%char (Str.slashes rel))
              ++ (if Str.includesChar (Str.slashes rel) "/"%char
                  then lit "/" else []))
         BLOAT_PATTERNS.
Proof.
  split.
  - vm_compute. reflexivity.
  - apply Forall_forall. intros bp _ Hx.
    unfold getIgnorePattern. unfold key_of in Hx. rewrite Hx.
    now rewrite split_many.
Qed.

Lemma table_rules_displayed_as_extensions_witness :
  getIgnorePattern (lit "node_modules/a/b.js") (Regex.top "node_modules")
  = lit "node_modules/" /\
  getIgnorePattern (lit "package-lock.json") (Regex.exact "package-lock.json")
  = lit "*.json".
Proof.
  destruct (table_rules_displayed_as_extensions (lit "node_modules/a/b.js"))
    as [_ H].
  rewrite Forall_forall in H.
  split; [|reflexivity].
  exact (H (rule (Regex.top "node_modules") dependencies
              "npm packages — never needed in context" critical)
           (or_introl eq_refl) eq_refl).
Defined.

(* ================================================================== *)
(** * The breakdown by category *)
(* ================================================================== *)

Lemma categoryName_inj (c c' : Category) :
  categoryName c = categoryName c' -> c = c'.
Proof. destruct c, c'; intros H; try reflexivity; discriminate. Qed.

Lemma breakdown_step_eq (m : Map.t Breakdown.t) (s : Suggestion.t) :
  let key := categoryName (Suggestion.category s) in
  let old := match Map.get key m with
             | Some b => b
             | None => {| Breakdown.tokenSavings := 0;
                          Breakdown.fileCount := 0;
                          Breakdown.patterns := [] |}
             end in
  breakdown_step m s =
  Map.set key
    {| Breakdown.tokenSavings :=
         Breakdown.tokenSavings old + Suggestion.tokenSavings s;
       Breakdown.fileCount := Breakdown.fileCount old + Suggestion.fileCount s;
       Breakdown.patterns := Breakdown.patterns old ++ [Suggestion.pattern s] |}
    m.
Proof.
  cbv zeta. unfold breakdown_step, Map.has.
  destruct (Map.get (categoryName (Suggestion.category s)) m) as [b|] eqn:Hg;
    cbn [negb].
  - now rewrite Hg.
  - now rewrite get_set_same, set_set.
Qed.

(** What [byCategory] holds once the suggestions [l] are gone through. *)
Lemma breakdown_counted (l : list Suggestion.t) :
  let m := fold_left breakdown_step l [] in
  NoDup (map fst m) /\
  total Breakdown.tokenSavings (Map.values m)
  = total Suggestion.tokenSavings l /\
  total Breakdown.fileCount (Map.values m) = total Suggestion.fileCount l /\
  forall c,
    match Map.get (categoryName c) m with
    | Some b =>
        of_category c l <> [] /\
        Breakdown.tokenSavings b
        = total Suggestion.tokenSavings (of_category c l) /\
        Breakdown.fileCount b = total Suggestion.fileCount (of_category c l) /\
        Breakdown.patterns b = map Suggestion.pattern (of_category c l)
    | None => of_category c l = []
    end.
Proof.
  cbv zeta. induction l as [|s l (Hnd & Ht & Hn & Hc)] using rev_ind.
  - repeat split; constructor.
  - rewrite fold_left_app. cbn [fold_left].
    set (m := fold_left breakdown_step l []) in *.
    rewrite breakdown_step_eq. cbv zeta.
    set (key := categoryName (Suggestion.category s)).
    split; [now apply set_NoDup|]. rewrite !set_total, !total_app.
    assert (Hs := Hc (Suggestion.category s)). fold key in Hs.
    split; [|split].
    + destruct (Map.get key m); simpl; lia.
    + destruct (Map.get key m); simpl; lia.
    + intros c. unfold of_category in *. rewrite filter_app. cbn [filter].
      fold key.
      destruct (Str.eqb key (categoryName c)) eqn:Hk.
      * apply eqb_eq in Hk. rewrite <- Hk, get_set_same.
        rewrite total_app, !total_app, map_app.
        specialize (Hc c). rewrite <- Hk in Hc.
        destruct (Map.get key m) as [b|].
        -- destruct Hc as (_ & H1 & H2 & H3).
           cbn [Breakdown.tokenSavings Breakdown.fileCount Breakdown.patterns].
           rewrite H1, H2, H3. simpl.
           repeat split; try lia.
           intros H. apply app_eq_nil in H as [_ H]. discriminate.
        -- rewrite Hc. simpl. repeat split; try lia. discriminate.
      * apply eqb_neq in Hk. rewrite get_set_other by exact Hk.
        rewrite app_nil_r. apply Hc.
Qed.

(** The breakdown by category keeps every total: a category is there
    exactly when a suggestion has it, once, with the savings and the file
    counts of its suggestions added up and their patterns in the order of
    the suggestions; over all categories the savings add up to those of the
    suggestions, which for an analysis is the bloat total. *)
Theorem category_breakdown_conserves_totals (analysis : Analysis.t) :
  let m := getCategoryBreakdown analysis in
  let l := Analysis.suggestions analysis in
  NoDup (map fst m) /\
  total Breakdown.tokenSavings (Map.values m)
  = total Suggestion.tokenSavings l /\
  total Breakdown.fileCount (Map.values m) = total Suggestion.fileCount l /\
  (forall c,
      match Map.get (categoryName c) m with
      | Some b =>
          of_category c l <> [] /\
          Breakdown.tokenSavings b
          = total Suggestion.tokenSavings (of_category c l) /\
          Breakdown.fileCount b
          = total Suggestion.fileCount (of_category c l) /\
          Breakdown.patterns b = map Suggestion.pattern (of_category c l)
      | None => of_category c l = []
      end) /\
  (forall scanned,
      analysis = analyze scanned ->
      total Breakdown.tokenSavings (Map.values m)
      = Analysis.bloatTokens analysis /\
      total Breakdown.fileCount (Map.values m)
      = Z.of_nat (List.length (Analysis.bloatFiles analysis))).
Proof.
  intros m l.
  destruct (breakdown_counted l) as (Hnd & Ht & Hn & Hc).
  repeat split; try assumption.
  - unfold m, getCategoryBreakdown. fold l. rewrite Ht.
    subst analysis. unfold l, analyze.
    cbn [Analysis.suggestions Analysis.bloatTokens].
    rewrite (total_perm _ (sort_perm _ _)), fold_left_total.
    destruct (classified_totals (files scanned)) as [_ H]. cbv zeta in H.
    rewrite H. lia.
  - unfold m, getCategoryBreakdown. fold l. rewrite Hn.
    subst analysis. unfold l, analyze.
    cbn [Analysis.suggestions Analysis.bloatFiles].
    rewrite (total_perm _ (sort_perm _ _)).
    now destruct (classified_totals (files scanned)) as [H _].
Qed.

Lemma category_breakdown_conserves_totals_witness :
  let m := getCategoryBreakdown (analyze demo_inventory) in
  map (fun kv => (fst kv, Breakdown.tokenSavings (snd kv),
                  Breakdown.fileCount (snd kv))) m
  = [ (lit "dependencies", 130, 2); (lit "build", 7, 1);
      (lit "logs", 3, 1) ] /\
  total Breakdown.tokenSavings (Map.values m)
  = Analysis.bloatTokens (analyze demo_inventory).
Proof.
  intros m. split; [vm_compute; reflexivity|].
  destruct (category_breakdown_conserves_totals (analyze demo_inventory))
    as (_ & _ & _ & _ & H).
  exact (proj1 (H demo_inventory eq_refl)).
Defined.

(* ================================================================== *)
(** * The grade *)
(* ================================================================== *)

(** The grades are bands of the percentage: [A+] exactly at 0, [F] exactly
    from 50 on, and between them a percentage that is not smaller never
    gets a better grade. *)
Theorem grade_follows_the_percentage (p q : Z) :
  (Grade.label (gradeContext p) = lit "A+" <-> p = 0) /\
  (Grade.label (gradeContext p) = lit "F" <-> 50 <= p) /\
  0 <= gradeRank (gradeContext p) <= 5 /\
  (0 <= p <= q -> gradeRank (gradeContext p) <= gradeRank (gradeContext q)).
Proof.
  unfold gradeContext.
  destruct (p =? 0) eqn:H0; destruct (p <? 5) eqn:H5;
    destruct (p <? 15) eqn:H15; destruct (p <? 30) eqn:H30;
    destruct (p <? 50) eqn:H50;
    destruct (q =? 0) eqn:G0; destruct (q <? 5) eqn:G5;
    destruct (q <? 15) eqn:G15; destruct (q <? 30) eqn:G30;
    destruct (q <? 50) eqn:G50;
    rewrite ?Z.eqb_eq, ?Z.eqb_neq, ?Z.ltb_lt, ?Z.ltb_ge in *;
    try lia;
    (repeat split; intros; try discriminate; try lia;
     try reflexivity; try (vm_compute; discriminate);
     try (vm_compute; reflexivity)).
Qed.

Lemma grade_follows_the_percentage_witness :
  map (fun p => Grade.label (gradeContext p)) [0; 4; 5; 14; 15; 29; 30; 49; 50]
  = map lit ["A+"; "A"; "B"; "B"; "C"; "C"; "D"; "D"; "F"] /\
  gradeRank (gradeContext 12) <= gradeRank (gradeContext 37).
Proof.
  split; [reflexivity|].
  apply (proj2 (proj2 (proj2 (grade_follows_the_percentage 12 37)))). lia.
Defined.

(* ================================================================== *)
(** * What the rules of the table match *)
(* ================================================================== *)

Lemma run_word (w : str) :
  forall b s k,
    Regex.run (Regex.word w) b s k =
    if Str.startsWith s w
    then k (match w with [] => b | _ :: _ => false end)
           (skipn (List.length w) s)
    else false.
Proof.
  induction w as [|c w IH]; intros b s k; [reflexivity|].
  destruct w as [|d w].
  - destruct s as [|x s]; [reflexivity|].
    cbn. now destruct (Ascii.eqb x c).
  - change (Regex.word (c :: d :: w))
      with (Cat (Chr c) (Regex.word (d :: w))).
    cbn [Regex.run]. destruct s as [|x s]; [reflexivity|].
    rewrite IH. cbn [Str.startsWith List.length skipn].
    destruct (Ascii.eqb x c); [|reflexivity]. reflexivity.
Qed.

Lemma run_sep (b : bool) (s : str) :
  Regex.run Regex.sep b s (fun _ _ => true) =
  match s with
  | [] => true
  | x :: _ => Ascii.eqb x "/"%char
  end.
Proof.
  destruct s as [|x s]; [reflexivity|].
  cbn. now rewrite andb_true_r, orb_false_r.
Qed.

Lemma search_anchored (r : regex) (s : str) :
  Regex.search (Cat Bol r) false s = false.
Proof. induction s as [|x s IH]; [reflexivity|]. cbn. exact IH. Qed.

Lemma test_anchored (r : regex) (s : str) :
  Regex.test (Cat Bol r) s = Regex.run r true s (fun _ _ => true).
Proof.
  unfold Regex.test. destruct s as [|x s]; cbn.
  - now rewrite orb_false_r.
  - now rewrite search_anchored, orb_false_r.
Qed.

Lemma skipn_prefix (p r : str) : skipn (List.length p) (p ++ r) = r.
Proof. induction p as [|c p IH]; [reflexivity | exact IH]. Qed.

Lemma below_name (nm s : str) :
  (Str.startsWith s nm &&
   match skipn (List.length nm) s with
   | [] => true
   | x :: _ => Ascii.eqb x "/"%char
   end) = true <->
  s = nm \/ exists rest, s = nm ++ lit "/" ++ rest.
Proof.
  rewrite andb_true_iff, startsWith_iff. split.
  - intros [[r ->] H]. rewrite skipn_prefix in H.
    destruct r as [|x r]; [left; apply app_nil_r|].
    apply Ascii.eqb_eq in H. subst x. right. now exists r.
  - intros [->|[rest ->]].
    + split; [exists []; now rewrite app_nil_r|].
      rewrite <- (app_nil_r nm) at 2. now rewrite skipn_prefix.
    + split; [now exists (lit "/" ++ rest)|]. now rewrite skipn_prefix.
Qed.

Lemma run_alts (rs : list regex) (b : bool) (s : str)
      (k : bool -> str -> bool) :
  rs <> [] ->
  Regex.run (Regex.alts rs) b s k = existsb (fun r => Regex.run r b s k) rs.
Proof.
  induction rs as [|r rs IH]; intros Hne; [congruence|].
  destruct rs as [|r' rs].
  - cbn. now rewrite orb_false_r.
  - change (Regex.alts (r :: r' :: rs)) with (Alt r (Regex.alts (r' :: rs))).
    cbn [Regex.run existsb]. rewrite IH by discriminate. reflexivity.
Qed.

(** The directory rules of the table are anchored at the root of the
    project: [^name(\/|$)] matches the path [name] and the paths below it,
    and no other; with alternatives, the same for one of the names.  A
    directory of that name deeper in the tree is not matched. *)
Theorem directory_rules_are_anchored (nm : string) (nms : list string)
        (s : str) :
  (Regex.test (Regex.top nm) s = true <->
   s = lit nm \/ exists rest, s = lit nm ++ lit "/" ++ rest) /\
  (nms <> [] ->
   (Regex.test (Regex.tops nms) s = true <->
    exists n, In n nms /\
              (s = lit n \/ exists rest, s = lit n ++ lit "/" ++ rest))).
Proof.
  split.
  - unfold Regex.top. cbn [Regex.seq]. rewrite test_anchored.
    cbn [Regex.run]. rewrite run_word.
    rewrite <- below_name.
    destruct (Str.startsWith s (lit nm)); [|now rewrite andb_false_l].
    rewrite run_sep. now rewrite andb_true_l.
  - intros Hne. unfold Regex.tops. cbn [Regex.seq]. rewrite test_anchored.
    cbn [Regex.run]. rewrite run_alts
      by (destruct nms; [congruence | discriminate]).
    rewrite existsb_exists. split.
    + intros [r [Hr H]]. apply in_map_iff in Hr as [n [<- Hn]].
      exists n. split; [exact Hn|]. apply below_name.
      rewrite run_word in H.
      destruct (Str.startsWith s (lit n)); [|discriminate].
      now rewrite run_sep in H.
    + intros [n [Hn H]]. exists (Regex.word (lit n)).
      split; [apply in_map_iff; now exists n|].
      apply below_name in H. rewrite run_word.
      apply andb_true_iff in H as [-> H]. now rewrite run_sep.
Qed.

Lemma directory_rules_are_anchored_witness :
  Regex.test (Regex.top "node_modules") (lit "node_modules/x.js") = true /\
  Regex.test (Regex.top "node_modules") (lit "pkg/node_modules/x.js") = false /\
  (Regex.test (Regex.tops ["dist"; "build"; "out"; "output"]) (lit "build/a")
   = true <->
   exists n, In n ["dist"; "build"; "out"; "output"] /\
             (lit "build/a" = lit n \/
              exists rest, lit "build/a" = lit n ++ lit "/" ++ rest)).
Proof.
  split; [reflexivity|]. split; [reflexivity|].
  apply (proj2 (directory_rules_are_anchored
                  "x" ["dist"; "build"; "out"; "output"] (lit "build/a"))).
  discriminate.
Defined.

Lemma search_suffix (e : str) :
  forall s b,
    Regex.search (Cat (Regex.word e) Eol) b s = true <->
    exists pre, s = pre ++ e.
Proof.
  assert (Hrun : forall s b,
             Regex.run (Cat (Regex.word e) Eol) b s (fun _ _ => true) = true
             <-> s = e).
  { intros s b. cbn [Regex.run]. rewrite run_word.
    destruct (Str.startsWith s e) eqn:Hs.
    - apply startsWith_iff in Hs as [r ->]. rewrite skipn_prefix.
      destruct r as [|x r]; cbn.
      + rewrite app_nil_r. tauto.
      + split; [discriminate|]. intros H.
        apply (f_equal (@List.length ascii)) in H.
        rewrite length_app in H. simpl in H. lia.
    - split; [discriminate|]. intros ->.
      rewrite <- (app_nil_r e) in Hs at 1.
      now rewrite startsWith_app in Hs. }
  induction s as [|x s IH]; intros b; cbn [Regex.search];
    rewrite orb_true_iff, Hrun.
  - split.
    + intros [<-|H]; [now exists [] | discriminate].
    + intros [pre H]. left. symmetry in H.
      apply app_eq_nil in H as [_ H]. now symmetry.
  - rewrite IH. split.
    + intros [<-|[pre ->]]; [now exists [] | now exists (x :: pre)].
    + intros [[|y pre] H]; [left; exact H|].
      right. injection H as _ ->. now exists pre.
Qed.

(** The file rules of the table.  A rule [^name$] matches the path [name]
    alone, so a lock file is matched at the root of the project and nowhere
    deeper; a rule [suffix$] matches every path that ends with the suffix,
    at any depth. *)
Theorem file_rules_match_names_and_suffixes (nm e : string) (s : str) :
  (Regex.test (Regex.exact nm) s = true <-> s = lit nm) /\
  (Regex.test (Regex.ending e) s = true <-> exists pre, s = pre ++ lit e).
Proof.
  split.
  - unfold Regex.exact. cbn [Regex.seq]. rewrite test_anchored.
    cbn [Regex.run]. rewrite run_word.
    destruct (Str.startsWith s (lit nm)) eqn:Hs.
    + apply startsWith_iff in Hs as [r ->]. rewrite skipn_prefix.
      destruct r as [|x r]; cbn.
      * rewrite app_nil_r. tauto.
      * split; [discriminate|]. intros H.
        apply (f_equal (@List.length ascii)) in H.
        rewrite length_app in H. simpl in H. lia.
    + split; [discriminate|]. intros ->.
      rewrite <- (app_nil_r (lit nm)) in Hs at 1.
      now rewrite startsWith_app in Hs.
  - unfold Regex.ending, Regex.test. cbn [Regex.seq]. apply search_suffix.
Qed.

Lemma file_rules_match_names_and_suffixes_witness :
  Regex.test (Regex.exact "yarn.lock") (lit "yarn.lock") = true /\
  Regex.test (Regex.exact "yarn.lock") (lit "pkg/yarn.lock") = false /\
  Regex.test (Regex.ending ".log") (lit "srv/out/debug.log") = true /\
  exists pre, lit "srv/out/debug.log" = pre ++ lit ".log".
Proof.
  split; [reflexivity|]. split; [reflexivity|]. split; [reflexivity|].
  apply (proj2 (file_rules_match_names_and_suffixes
                  "x" ".log" (lit "srv/out/debug.log"))).
  reflexivity.
Defined.

(* ================================================================== *)
(** * Rules that end with a separator *)
(* ================================================================== *)

Lemma split_nil (c : ascii) : Str.split c [] = [[]].
Proof. reflexivity. Qed.

(** A rule that ends with a separator, as [dist/] does, matches no path
    made of non-empty segments: it asks for a path that ends with a
    separator or holds two in a row, and the relative paths of the walk do
    neither. *)
Theorem trailing_separator_rule_matches_nothing
  (E : str -> str -> option bool) (cand rule : str) :
  Str.endsWith (Str.slashes rule) (lit "/") = true ->
  Str.startsWith (Str.slashes rule) (lit "**/") = false ->
  Forall (fun seg => seg <> []) (Str.split "/"%char (Str.slashes cand)) ->
  matchesPattern E cand rule = Returned false.
Proof.
  intros Hend Hstar Hsegs.
  set (p := Str.slashes rule) in *. set (c := Str.slashes cand) in *.
  assert (Hslash : Str.includesChar p "/"%char = true)
    by (apply (endsWith_slash_includes p [] Hend)).
  destruct (proj1 (endsWith_iff _ _) Hend) as [d Hd].
  assert (H1 : Str.endsWith p (lit "/*") = false).
  { rewrite Hd. unfold Str.endsWith. now rewrite rev_app_distr. }
  assert (H2 : Str.endsWith p (lit "/**") = false).
  { rewrite Hd. unfold Str.endsWith. now rewrite rev_app_distr. }
  unfold matchesPattern. fold p. fold c.
  rewrite Hslash, Hstar, H1, H2. cbn [negb]. f_equal.
  apply orb_false_iff. rewrite Forall_forall in Hsegs. split.
  - apply eqb_neq. intros Hc. apply (Hsegs []); [|reflexivity].
    rewrite Hc, Hd. change (d ++ lit "/") with (d ++ "/"%char :: []).
    rewrite split_app, split_nil. apply in_or_app. right. now left.
  - apply not_true_is_false. intros Hs.
    apply startsWith_iff in Hs as [r Hr].
    apply (Hsegs []); [|reflexivity].
    rewrite Hr, Hd, <- !app_assoc.
    change (d ++ lit "/" ++ lit "/" ++ r) with (d ++ "/"%char :: "/"%char :: r).
    rewrite split_app. apply in_or_app. right.
    cbn [Str.split]. rewrite Ascii.eqb_refl. now left.
Qed.

Lemma trailing_separator_rule_matches_nothing_witness :
  matchesPattern Fragment.test (lit "dist/a.js") (lit "dist/") = Returned false
  /\ matchesPattern Fragment.test (lit "dist") (lit "dist/") = Returned false.
Proof.
  split.
  - apply (@trailing_separator_rule_matches_nothing Fragment.test
             (lit "dist/a.js") (lit "dist/") eq_refl eq_refl).
    repeat constructor; discriminate.
  - apply (@trailing_separator_rule_matches_nothing Fragment.test
             (lit "dist") (lit "dist/") eq_refl eq_refl).
    repeat constructor; discriminate.
Defined.
